(** * The expression language of SWP-Go-Examples.go

    A shallow embedding of the "Simple expression language" section of
    [SWP-Go-Examples.go]: the values [Val] with their three constructors
    [mkInt], [mkBool], [mkUndefined], the display function [showVal], the
    six expression types [Bool], [Num], [Mult], [Plus], [And], [Or] and
    their two methods [pretty] and [eval].

    Conventions.
    - Go's [int] is taken at 64 bits ([strconv.IntSize] on the usual
      targets): a value is a [Z], and [+] and [*] wrap around with
      [wrap]. The lemmas on [wrapN] hold at any width.
    - [Kind] is an [int] in the source, so it is a [Z] here, with the three
      named constants; a [Val] is the struct with its three fields, and two
      values are equal when their fields are, as [==] on Go structs.
    - A Go string is a [string]; [x += s] is [append].
    - An expression tree is a value of [Exp]: a node of one of the six
      types, whose children are trees. The methods are the recursive
      functions [pretty] and [eval] on trees.
    - Each binary method first calls the method on [e[0]] and on [e[1]] and
      then combines the two results; the combining part of each method is
      a definition of its own ([Mult_eval], [Plus_pretty], ...), used both by
      the recursion on trees and by the model of method calls on
      interface values, [Iface], where a variable of type [Exp] may also
      hold [nil] and a call may panic. *)

From Stdlib Require Import ZArith Bool List String Ascii Lia.
From Stdlib Require Import DecimalString DecimalPos DecimalZ.

Local Open Scope string_scope.
Local Open Scope Z_scope.

(** ** Machine integers *)

Definition intSize : Z := 64.

(** The signed [w]-bit integer congruent to [x] modulo [2^w]. *)
Definition wrapN (w x : Z) : Z :=
  (x + 2 ^ (w - 1)) mod 2 ^ w - 2 ^ (w - 1).

Definition wrap (x : Z) : Z := wrapN intSize x.

Definition minInt : Z := - 2 ^ (intSize - 1).
Definition maxInt : Z := 2 ^ (intSize - 1) - 1.

Definition in_int (x : Z) : bool := (minInt <=? x) && (x <=? maxInt).

(** [n1.valI + n2.valI] and [n1.valI * n2.valI] on Go's [int]. *)
Definition int_add (a b : Z) : Z := wrap (a + b).
Definition int_mul (a b : Z) : Z := wrap (a * b).

(** [strconv.Itoa] of Go's standard library: the decimal digits of the
    integer, most significant first, with a leading [-] for a negative
    one and the single digit [0] for zero. *)
Definition Itoa (i : Z) : string := NilZero.string_of_int (Z.to_int i).

(** ** Values *)

Definition Kind : Type := Z.

Definition ValueInt : Kind := 0.
Definition ValueBool : Kind := 1.
Definition Undefined : Kind := 2.

Record Val : Type := mkVal { flag : Kind; valI : Z; valB : bool }.

(** Fields a Go composite literal leaves out hold their zero value. *)
Definition mkInt (x : Z) : Val := {| flag := ValueInt; valI := x; valB := false |}.
Definition mkBool (x : bool) : Val := {| flag := ValueBool; valI := 0; valB := x |}.
Definition mkUndefined : Val := {| flag := Undefined; valI := 0; valB := false |}.

(** ** Expressions

    The six types that implement the interface [Exp]; [Mult], [Plus], [And]
    and [Or] are arrays [[2]Exp] of the two children. *)

Inductive Exp : Type :=
| Bool (x : bool)
| Num (x : Z)
| Mult (e0 e1 : Exp)
| Plus (e0 e1 : Exp)
| And (e0 e1 : Exp)
| Or (e0 e1 : Exp).

(** ** pretty *)

Definition Bool_pretty (x : bool) : string :=
  if x then "true" else "false".

Definition Num_pretty (x : Z) : string := Itoa x.

(** [x = "("; x += e[0].pretty(); x += "*"; x += e[1].pretty(); x += ")"],
    with [s0] and [s1] the strings the two calls returned. *)
Definition Mult_pretty (s0 s1 : string) : string :=
  let x := "(" in
  let x := x ++ s0 in
  let x := x ++ "*" in
  let x := x ++ s1 in
  let x := x ++ ")" in
  x.

Definition Plus_pretty (s0 s1 : string) : string :=
  let x := "(" in
  let x := x ++ s0 in
  let x := x ++ "+" in
  let x := x ++ s1 in
  let x := x ++ ")" in
  x.

Definition And_pretty (s0 s1 : string) : string :=
  let x := "(" in
  let x := x ++ s0 in
  let x := x ++ "&&" in
  let x := x ++ s1 in
  let x := x ++ ")" in
  x.

Definition Or_pretty (s0 s1 : string) : string :=
  let x := "(" in
  let x := x ++ s0 in
  let x := x ++ "||" in
  let x := x ++ s1 in
  let x := x ++ ")" in
  x.

Fixpoint pretty (e : Exp) : string :=
  match e with
  | Bool x => Bool_pretty x
  | Num x => Num_pretty x
  | Mult e0 e1 => Mult_pretty (pretty e0) (pretty e1)
  | Plus e0 e1 => Plus_pretty (pretty e0) (pretty e1)
  | And e0 e1 => And_pretty (pretty e0) (pretty e1)
  | Or e0 e1 => Or_pretty (pretty e0) (pretty e1)
  end.

(** ** showVal

    A [switch] with no default: when no case holds, [s] keeps the zero
    value of a string. *)
Definition showVal (v : Val) : string :=
  if flag v =? ValueInt then pretty (Num (valI v))
  else if flag v =? ValueBool then pretty (Bool (valB v))
  else if flag v =? Undefined then "Undefined"
  else "".

(** ** eval *)

Definition Bool_eval (x : bool) : Val := mkBool x.

Definition Num_eval (x : Z) : Val := mkInt x.

(** The bodies of the four binary methods after [n1 := e[0].eval()] and
    [n2 := e[1].eval()]. *)
Definition Mult_eval (n1 n2 : Val) : Val :=
  if (flag n1 =? ValueInt) && (flag n2 =? ValueInt)
  then mkInt (int_mul (valI n1) (valI n2))
  else mkUndefined.

Definition Plus_eval (n1 n2 : Val) : Val :=
  if (flag n1 =? ValueInt) && (flag n2 =? ValueInt)
  then mkInt (int_add (valI n1) (valI n2))
  else mkUndefined.

Definition And_eval (b1 b2 : Val) : Val :=
  if (flag b1 =? ValueBool) && Bool.eqb (valB b1) false then mkBool false
  else if (flag b1 =? ValueBool) && (flag b2 =? ValueBool)
       then mkBool (valB b1 && valB b2)
       else mkUndefined.

Definition Or_eval (b1 b2 : Val) : Val :=
  if (flag b1 =? ValueBool) && Bool.eqb (valB b1) true then mkBool true
  else if (flag b1 =? ValueBool) && (flag b2 =? ValueBool)
       then mkBool (valB b1 || valB b2)
       else mkUndefined.

Fixpoint eval (e : Exp) : Val :=
  match e with
  | Bool x => Bool_eval x
  | Num x => Num_eval x
  | Mult e0 e1 => Mult_eval (eval e0) (eval e1)
  | Plus e0 e1 => Plus_eval (eval e0) (eval e1)
  | And e0 e1 => And_eval (eval e0) (eval e1)
  | Or e0 e1 => Or_eval (eval e0) (eval e1)
  end.

(** The helper functions that build ASTs by hand. *)
Module Build.

Definition number (x : Z) : Exp := Num x.
Definition boolean (x : bool) : Exp := Bool x.
Definition plus (x y : Exp) : Exp := Plus x y.
Definition mult (x y : Exp) : Exp := Mult x y.
Definition and (x y : Exp) : Exp := And x y.
Definition or (x y : Exp) : Exp := Or x y.

End Build.

(** ** Method calls on interface values

    A variable of type [Exp] holds [nil] or a value of one of the six
    types, and the children of a binary node are such variables. A method
    call on [nil] panics; that is the only way a call of [pretty] or [eval]
    can fail. [box] is the interface value of a tree. *)
Module Iface.

Inductive value : Type :=
| nil
| ofBool (x : bool)
| ofNum (x : Z)
| ofMult (e0 e1 : value)
| ofPlus (e0 e1 : value)
| ofAnd (e0 e1 : value)
| ofOr (e0 e1 : value).

Inductive result (A : Type) : Type :=
| Ok (a : A)
| Panic.

Arguments Ok {A} a.
Arguments Panic {A}.

Definition bind {A B : Type} (c : result A) (k : A -> result B) : result B :=
  match c with
  | Ok a => k a
  | Panic => Panic
  end.

Notation "x <- c ;; k" := (bind c (fun x => k))
  (at level 61, c at next level, right associativity).

Fixpoint pretty (e : value) : result string :=
  match e with
  | nil => Panic
  | ofBool x => Ok (Bool_pretty x)
  | ofNum x => Ok (Num_pretty x)
  | ofMult e0 e1 => s0 <- pretty e0 ;; s1 <- pretty e1 ;; Ok (Mult_pretty s0 s1)
  | ofPlus e0 e1 => s0 <- pretty e0 ;; s1 <- pretty e1 ;; Ok (Plus_pretty s0 s1)
  | ofAnd e0 e1 => s0 <- pretty e0 ;; s1 <- pretty e1 ;; Ok (And_pretty s0 s1)
  | ofOr e0 e1 => s0 <- pretty e0 ;; s1 <- pretty e1 ;; Ok (Or_pretty s0 s1)
  end.

Fixpoint eval (e : value) : result Val :=
  match e with
  | nil => Panic
  | ofBool x => Ok (Bool_eval x)
  | ofNum x => Ok (Num_eval x)
  | ofMult e0 e1 => n1 <- eval e0 ;; n2 <- eval e1 ;; Ok (Mult_eval n1 n2)
  | ofPlus e0 e1 => n1 <- eval e0 ;; n2 <- eval e1 ;; Ok (Plus_eval n1 n2)
  | ofAnd e0 e1 => b1 <- eval e0 ;; b2 <- eval e1 ;; Ok (And_eval b1 b2)
  | ofOr e0 e1 => b1 <- eval e0 ;; b2 <- eval e1 ;; Ok (Or_eval b1 b2)
  end.

Fixpoint box (e : Exp) : value :=
  match e with
  | Bool x => ofBool x
  | Num x => ofNum x
  | Mult e0 e1 => ofMult (box e0) (box e1)
  | Plus e0 e1 => ofPlus (box e0) (box e1)
  | And e0 e1 => ofAnd (box e0) (box e1)
  | Or e0 e1 => ofOr (box e0) (box e1)
  end.

(** No [nil] anywhere in the value. *)
Fixpoint is_tree (e : value) : bool :=
  match e with
  | nil => false
  | ofBool _ | ofNum _ => true
  | ofMult e0 e1 | ofPlus e0 e1 | ofAnd e0 e1 | ofOr e0 e1 =>
      is_tree e0 && is_tree e1
  end.

End Iface.

(** ** Measures on trees and strings, for the statements below *)

(** The two children of a binary node and its operator token. *)
Definition children (e : Exp) : option (Exp * Exp) :=
  match e with
  | Bool _ | Num _ => None
  | Mult e0 e1 | Plus e0 e1 | And e0 e1 | Or e0 e1 => Some (e0, e1)
  end.

Definition op_token (e : Exp) : option string :=
  match e with
  | Bool _ | Num _ => None
  | Mult _ _ => Some "*"
  | Plus _ _ => Some "+"
  | And _ _ => Some "&&"
  | Or _ _ => Some "||"
  end.

Fixpoint binary_nodes (e : Exp) : nat :=
  match e with
  | Bool _ | Num _ => 0
  | Mult e0 e1 | Plus e0 e1 | And e0 e1 | Or e0 e1 =>
      S (binary_nodes e0 + binary_nodes e1)
  end.

(** The string a binary node is to print: the rendering of the left child,
    the operator token and the rendering of the right child, in one pair
    of parentheses. *)
Definition infix (s0 op s1 : string) : string :=
  ("(" ++ s0 ++ op ++ s1 ++ ")")%string.

(** How many nodes of the tree satisfy [p]. *)
Fixpoint nodes (p : Exp -> bool) (e : Exp) : nat :=
  ((if p e then 1 else 0) +
   match e with
   | Bool _ | Num _ => 0
   | Mult e0 e1 | Plus e0 e1 | And e0 e1 | Or e0 e1 => nodes p e0 + nodes p e1
   end)%nat.

Definition is_Mult (e : Exp) : bool := match e with Mult _ _ => true | _ => false end.
Definition is_Plus (e : Exp) : bool := match e with Plus _ _ => true | _ => false end.
Definition is_And (e : Exp) : bool := match e with And _ _ => true | _ => false end.
Definition is_Or (e : Exp) : bool := match e with Or _ _ => true | _ => false end.

(** Occurrences of the character [c] in [s]. *)
Fixpoint count (c : ascii) (s : string) : nat :=
  match s with
  | EmptyString => 0
  | String a s' => ((if Ascii.eqb a c then 1 else 0) + count c s')%nat
  end.

(** Every character of [s] satisfies [p]. *)
Fixpoint all_chars (p : ascii -> bool) (s : string) : bool :=
  match s with
  | EmptyString => true
  | String a s' => p a && all_chars p s'
  end.

(** Reading [s] from the left at nesting depth [d]: an opening parenthesis
    goes one level down, a closing one comes back up and has no match at
    depth 0. The result is the depth at the end of the string. *)
Fixpoint nesting (d : nat) (s : string) : option nat :=
  match s with
  | EmptyString => Some d
  | String a s' =>
      if Ascii.eqb a "(" then nesting (S d) s'
      else if Ascii.eqb a ")" then
             match d with
             | O => None
             | S d' => nesting d' s'
             end
           else nesting d s'
  end.

Definition balanced (s : string) : bool :=
  match nesting 0 s with
  | Some O => true
  | _ => false
  end.

(** A decimal digit or the minus sign: the characters of [Itoa]. *)
Definition int_char (a : ascii) : bool :=
  existsb (Ascii.eqb a) (list_ascii_of_string "-0123456789").

(** The integer a decimal string denotes, when it is one: the inverse of
    [Itoa], used to say that [Itoa i] is the decimal string of [i]. *)
Definition decimal_value (s : string) : option Z :=
  option_map Z.of_int (NilZero.int_of_string s).

(** The three shapes a result of [eval] can have. *)
Inductive Result : Val -> Prop :=
| is_mkInt (i : Z) : Result (mkInt i)
| is_mkBool (b : bool) : Result (mkBool b)
| is_mkUndefined : Result mkUndefined.

(** The type of an expression whose operands all have the type their
    operator works on: [Plus] and [Mult] take and give integers, [And] and
    [Or] booleans. [None] is a type mismatch somewhere in the tree. *)
Inductive Ty : Type := TInt | TBool.

Definition binop_type (operand : Ty) (t0 t1 : option Ty) : option Ty :=
  match operand, t0, t1 with
  | TInt, Some TInt, Some TInt => Some TInt
  | TBool, Some TBool, Some TBool => Some TBool
  | _, _, _ => None
  end.

Fixpoint type_of (e : Exp) : option Ty :=
  match e with
  | Bool _ => Some TBool
  | Num _ => Some TInt
  | Mult e0 e1 | Plus e0 e1 => binop_type TInt (type_of e0) (type_of e1)
  | And e0 e1 | Or e0 e1 => binop_type TBool (type_of e0) (type_of e1)
  end.

(** Every [Num] leaf holds a value of Go's [int]. *)
Fixpoint int_leaves (e : Exp) : bool :=
  match e with
  | Bool _ => true
  | Num x => in_int x
  | Mult e0 e1 | Plus e0 e1 | And e0 e1 | Or e0 e1 => int_leaves e0 && int_leaves e1
  end.

(** The string is empty or starts with a character that no integer
    contains: what follows a printed subtree inside a printed tree (an
    operator or a closing parenthesis) or ends it. *)
Definition stops (s : string) : bool :=
  match s with
  | EmptyString => true
  | String c _ => negb (int_char c)
  end.

(** ** The functions of the tutorial part

    The functions of [example5] to [example12]: integer functions,
    a search over a slice, structs with methods, an interface with two
    implementations, and two functions that write through pointers.

    - A panic is [Iface.Panic], as for the method calls above.
    - A function value passed as an argument ([p] of [any]) is a function
      that returns and has no effect.
    - A slice that is only read is the [list] of its elements.
    - The two structs both name a field [x]; the projections carry the
      name of the struct.
    - A pointer is [None] for [nil] or [Some l] for the address [l] of a
      variable; the variables a pointer can point to are a [store], a total
      map from addresses to their current values (a Go pointer that is not
      [nil] always points to a live variable). *)
Module Tutorial.

(** Go's [x / y] on [int]: a run-time panic when [y] is zero, otherwise the
    quotient truncated towards zero, in the arithmetic of [int] (the one
    quotient that does not fit is [minInt / -1]). *)
Definition int_quo (x y : Z) : Iface.result Z :=
  if y =? 0 then Iface.Panic else Iface.Ok (wrap (Z.quot x y)).

Definition add (x y : Z) : Z := int_add x y.

Definition div (x y : Z) : Iface.result (Z * bool) :=
  if y =? 0 then Iface.Ok (0, false)
  else Iface.bind (int_quo x y) (fun q => Iface.Ok (q, true)).

(** [for _, x := range xs { if p(x) { return true, x } }; return false, -1] *)
Fixpoint any (p : Z -> bool) (xs : list Z) : bool * Z :=
  match xs with
  | nil => (false, -1)
  | x :: xs' => if p x then (true, x) else any p xs'
  end.

Definition gt5 (x : Z) : bool := x >? 5.

Definition sum (x : Z) : Z -> Z := fun y => int_add x y.

Record rectangle : Type := mkRectangle { rectangle_x : Z; rectangle_y : Z }.

Record square : Type := mkSquare { square_x : Z }.

Definition scaleRectangle (p : rectangle) (s : Z) : rectangle :=
  mkRectangle (int_mul (rectangle_x p) s) (int_mul (rectangle_y p) s).

Definition rectangle_area (r : rectangle) : Z :=
  int_mul (rectangle_x r) (rectangle_y r).

Definition square_area (s : square) : Z :=
  int_mul (square_x s) (square_x s).

(** A variable of the interface type [shape], as the program fills it:
    [nil], a [rectangle] or a [square]. *)
Inductive shape : Type :=
| shape_nil
| of_rectangle (r : rectangle)
| of_square (s : square).

(** The method call [v.area()]. *)
Definition area (v : shape) : Iface.result Z :=
  match v with
  | shape_nil => Iface.Panic
  | of_rectangle r => Iface.Ok (rectangle_area r)
  | of_square s => Iface.Ok (square_area s)
  end.

Definition sumArea (x y : shape) : Iface.result Z :=
  Iface.bind (area x) (fun a =>
  Iface.bind (area y) (fun b =>
  Iface.Ok (int_add a b))).

Definition pointer : Type := option nat.

Definition store (A : Type) : Type := nat -> A.

(** The store after an assignment of [v] to the variable at [l]. *)
Definition assign {A : Type} (h : store A) (l : nat) (v : A) : store A :=
  fun l' => if Nat.eqb l' l then v else h l'.

(** The two assignments through [p]: to the field [x], then to the field
    [y] of the struct it points to. *)
Definition scaleRectangleRef (h : store rectangle) (p : pointer) (s : Z)
  : Iface.result (store rectangle) :=
  match p with
  | None => Iface.Panic
  | Some l =>
      let h1 := assign h l (mkRectangle (int_mul (rectangle_x (h l)) s) (rectangle_y (h l))) in
      let h2 := assign h1 l (mkRectangle (rectangle_x (h1 l)) (int_mul (rectangle_y (h1 l)) s)) in
      Iface.Ok h2
  end.

(** Read [x] into [tmp], assign the value at [y] to [x], assign [tmp] to
    [y]; the variables are of type [interface{}], their values taken in any
    type [A]. *)
Definition swap {A : Type} (h : store A) (x y : pointer) : Iface.result (store A) :=
  match x with
  | None => Iface.Panic
  | Some lx =>
      let tmp := h lx in
      match y with
      | None => Iface.Panic
      | Some ly =>
          let h1 := assign h lx (h ly) in
          let h2 := assign h1 ly tmp in
          Iface.Ok h2
      end
  end.

End Tutorial.

(** * Properties *)

(** ** Wrap-around arithmetic *)

Section Wrap.

Variable w : Z.
Hypothesis w_pos : 0 < w.

Lemma pow2_split : 2 ^ w = 2 * 2 ^ (w - 1).
Proof.
  replace w with (Z.succ (w - 1)) at 1 by lia.
  apply Z.pow_succ_r. lia.
Qed.

Lemma pow2_half_pos : 0 < 2 ^ (w - 1).
Proof. apply Z.pow_pos_nonneg; lia. Qed.

Lemma wrapN_range (x : Z) : - 2 ^ (w - 1) <= wrapN w x < 2 ^ (w - 1).
Proof.
  unfold wrapN.
  pose proof pow2_split as Hs. pose proof pow2_half_pos as Hh.
  pose proof (Z.mod_pos_bound (x + 2 ^ (w - 1)) (2 ^ w)) as Hm.
  lia.
Qed.

Lemma wrapN_small (x : Z) :
  - 2 ^ (w - 1) <= x < 2 ^ (w - 1) -> wrapN w x = x.
Proof.
  intros Hx. unfold wrapN.
  pose proof pow2_split as Hs.
  rewrite Z.mod_small by lia. lia.
Qed.

Lemma wrapN_congr (x : Z) : exists k, wrapN w x = x + k * 2 ^ w.
Proof.
  exists (- ((x + 2 ^ (w - 1)) / 2 ^ w)).
  unfold wrapN.
  pose proof pow2_split as Hs. pose proof pow2_half_pos as Hh.
  rewrite Z.mod_eq by lia. lia.
Qed.

Lemma wrapN_mod (x : Z) : wrapN w x mod 2 ^ w = x mod 2 ^ w.
Proof.
  destruct (wrapN_congr x) as [k ->].
  apply Z.mod_add.
  pose proof pow2_split. pose proof pow2_half_pos. lia.
Qed.

End Wrap.

Lemma intSize_pos : 0 < intSize.
Proof. reflexivity. Qed.

Lemma wrap_range (x : Z) : minInt <= wrap x <= maxInt.
Proof.
  pose proof (wrapN_range intSize intSize_pos x) as H.
  unfold wrap, minInt, maxInt. lia.
Qed.

Lemma in_int_spec (x : Z) : in_int x = true <-> minInt <= x <= maxInt.
Proof.
  unfold in_int. rewrite andb_true_iff, !Z.leb_le. tauto.
Qed.

Lemma wrap_in_int (x : Z) : in_int (wrap x) = true.
Proof. apply in_int_spec, wrap_range. Qed.

Lemma wrap_small (x : Z) : in_int x = true -> wrap x = x.
Proof.
  intros H. apply in_int_spec in H.
  apply (wrapN_small intSize intSize_pos).
  unfold minInt, maxInt in H. lia.
Qed.

Lemma wrap_mod (x : Z) : wrap x mod 2 ^ intSize = x mod 2 ^ intSize.
Proof. apply (wrapN_mod intSize intSize_pos). Qed.

(** ** Strings *)

Lemma append_assoc (s t u : string) : ((s ++ t) ++ u = s ++ (t ++ u))%string.
Proof.
  induction s as [|a s IH]; simpl.
  - reflexivity.
  - now rewrite IH.
Qed.

Lemma count_append (c : ascii) (s t : string) :
  count c (s ++ t) = (count c s + count c t)%nat.
Proof.
  induction s as [|a s IH]; simpl.
  - reflexivity.
  - rewrite IH. lia.
Qed.

Lemma all_chars_count (p : ascii -> bool) (c : ascii) (s : string) :
  all_chars p s = true -> p c = false -> count c s = 0%nat.
Proof.
  intros Hs Hc.
  induction s as [|a s IH]; simpl in *.
  - reflexivity.
  - apply andb_true_iff in Hs. destruct Hs as [Ha Hs].
    destruct (Ascii.eqb_spec a c) as [->|_].
    + congruence.
    + now rewrite IH.
Qed.

Lemma nesting_plain (p : ascii -> bool) (s t : string) (d : nat) :
  all_chars p s = true -> p "("%char = false -> p ")"%char = false ->
  nesting d (s ++ t) = nesting d t.
Proof.
  intros Hs Ho Hc.
  induction s as [|a s IH]; simpl in *.
  - reflexivity.
  - apply andb_true_iff in Hs. destruct Hs as [Ha Hs].
    destruct (Ascii.eqb_spec a "(") as [->|_]; [congruence|].
    destruct (Ascii.eqb_spec a ")") as [->|_]; [congruence|].
    now apply IH.
Qed.

(** ** Itoa *)

Lemma digits_int_char (d : Decimal.uint) :
  all_chars int_char (NilEmpty.string_of_uint d) = true.
Proof.
  induction d; simpl; try rewrite IHd; reflexivity.
Qed.

Lemma Itoa_int_char (i : Z) : all_chars int_char (Itoa i) = true.
Proof.
  assert (Hu : forall d, all_chars int_char (NilZero.string_of_uint d) = true).
  { intros d. pose proof (digits_int_char d) as H. now destruct d. }
  unfold Itoa. destruct (Z.to_int i) as [d|d]; simpl.
  - apply Hu.
  - apply Hu.
Qed.

Lemma Itoa_count (c : ascii) (i : Z) : int_char c = false -> count c (Itoa i) = 0%nat.
Proof. apply all_chars_count, Itoa_int_char. Qed.

Lemma Itoa_not_Undefined (i : Z) : Itoa i <> "Undefined".
Proof.
  intros H. pose proof (Itoa_int_char i) as Hc.
  rewrite H in Hc. discriminate Hc.
Qed.

Lemma Itoa_decimal (i : Z) : decimal_value (Itoa i) = Some i.
Proof.
  unfold decimal_value, Itoa.
  rewrite NilZero.isi.
  - simpl. f_equal. apply DecimalZ.of_to.
  - destruct i as [|p|p]; simpl; try discriminate.
    intros H. injection H as H. now apply Unsigned.to_uint_nonnil in H.
  - destruct i as [|p|p]; simpl; try discriminate.
    intros H. injection H as H. now apply Unsigned.to_uint_nonnil in H.
Qed.

Lemma Itoa_inj (i j : Z) : Itoa i = Itoa j -> i = j.
Proof.
  intros H. pose proof (Itoa_decimal i) as Hi.
  rewrite H, Itoa_decimal in Hi. congruence.
Qed.

(** ** pretty *)

Lemma append_nil_r (s : string) : (s ++ "")%string = s.
Proof.
  induction s as [|a s IH]; simpl; congruence.
Qed.

Lemma Mult_pretty_infix (s0 s1 : string) : Mult_pretty s0 s1 = infix s0 "*" s1.
Proof.
  unfold Mult_pretty, infix. cbv zeta. now rewrite !append_assoc.
Qed.

Lemma Plus_pretty_infix (s0 s1 : string) : Plus_pretty s0 s1 = infix s0 "+" s1.
Proof.
  unfold Plus_pretty, infix. cbv zeta. now rewrite !append_assoc.
Qed.

Lemma And_pretty_infix (s0 s1 : string) : And_pretty s0 s1 = infix s0 "&&" s1.
Proof.
  unfold And_pretty, infix. cbv zeta. now rewrite !append_assoc.
Qed.

Lemma Or_pretty_infix (s0 s1 : string) : Or_pretty s0 s1 = infix s0 "||" s1.
Proof.
  unfold Or_pretty, infix. cbv zeta. now rewrite !append_assoc.
Qed.

Lemma pretty_binary (e l r : Exp) (op : string) :
  children e = Some (l, r) -> op_token e = Some op ->
  pretty e = infix (pretty l) op (pretty r).
Proof.
  destruct e; simpl; intros Hc Ho; try discriminate;
    injection Hc as <- <-; injection Ho as <-.
  - apply Mult_pretty_infix.
  - apply Plus_pretty_infix.
  - apply And_pretty_infix.
  - apply Or_pretty_infix.
Qed.

(** C5. [pretty] follows the structure of the tree: [Num i] is printed as
    the decimal string of [i] (the string [Itoa i], which reads back as
    [i]), [Bool b] as ["true"] or ["false"], and a binary node as an opening
    parenthesis, the left child, the operator ([+], [*], [&&] or [||] by the
    kind of the node), the right child and a closing parenthesis; the tree
    [Plus (Mult (Num 1) (Num 2)) (Num 0)] is printed as ["((1*2)+0)"]. *)
Theorem pretty_structural :
  (forall i, pretty (Num i) = Itoa i /\ decimal_value (pretty (Num i)) = Some i) /\
  pretty (Bool true) = "true" /\
  pretty (Bool false) = "false" /\
  (forall l r, pretty (Plus l r) = ("(" ++ pretty l ++ "+" ++ pretty r ++ ")")%string) /\
  (forall l r, pretty (Mult l r) = ("(" ++ pretty l ++ "*" ++ pretty r ++ ")")%string) /\
  (forall l r, pretty (And l r) = ("(" ++ pretty l ++ "&&" ++ pretty r ++ ")")%string) /\
  (forall l r, pretty (Or l r) = ("(" ++ pretty l ++ "||" ++ pretty r ++ ")")%string) /\
  pretty (Plus (Mult (Num 1) (Num 2)) (Num 0)) = "((1*2)+0)".
Proof.
  repeat split.
  - apply Itoa_decimal.
  - intros l r. apply (pretty_binary (Plus l r)); reflexivity.
  - intros l r. apply (pretty_binary (Mult l r)); reflexivity.
  - intros l r. apply (pretty_binary (And l r)); reflexivity.
  - intros l r. apply (pretty_binary (Or l r)); reflexivity.
Qed.

(** ** The shape of the printed string *)

Lemma count_infix (c : ascii) (s0 op s1 : string) :
  count c (infix s0 op s1) =
  (count c "(" + count c s0 + count c op + count c s1 + count c ")")%nat.
Proof.
  unfold infix. rewrite !count_append. lia.
Qed.

Lemma pretty_cases (e : Exp) :
  (exists b, e = Bool b /\ pretty e = Bool_pretty b) \/
  (exists i, e = Num i /\ pretty e = Itoa i) \/
  (exists l r op, children e = Some (l, r) /\ op_token e = Some op /\
                  pretty e = infix (pretty l) op (pretty r)).
Proof.
  destruct e as [b|i|l r|l r|l r|l r].
  - left. now exists b.
  - right. left. now exists i.
  - right. right. exists l, r, "*". now rewrite <- Mult_pretty_infix.
  - right. right. exists l, r, "+". now rewrite <- Plus_pretty_infix.
  - right. right. exists l, r, "&&". now rewrite <- And_pretty_infix.
  - right. right. exists l, r, "||". now rewrite <- Or_pretty_infix.
Qed.

(** Occurrences of a character that is neither a digit nor the minus sign:
    those of the parentheses and operators of the binary nodes. *)
Lemma count_pretty (c : ascii) (e : Exp) :
  int_char c = false ->
  count c "true" = 0%nat -> count c "false" = 0%nat ->
  count c (pretty e) =
  (count c "(" * binary_nodes e + count c ")" * binary_nodes e +
   count c "*" * nodes is_Mult e + count c "+" * nodes is_Plus e +
   count c "&&" * nodes is_And e + count c "||" * nodes is_Or e)%nat.
Proof.
  intros Hc Ht Hf.
  induction e as [b|i|l IHl r IHr|l IHl r IHr|l IHl r IHr|l IHl r IHr].
  - destruct b; simpl pretty; unfold Bool_pretty; rewrite ?Ht, ?Hf; simpl; lia.
  - simpl pretty. unfold Num_pretty. rewrite Itoa_count by assumption. simpl. lia.
  - simpl pretty. rewrite Mult_pretty_infix, count_infix, IHl, IHr.
    cbn [binary_nodes nodes is_Mult is_Plus is_And is_Or]. lia.
  - simpl pretty. rewrite Plus_pretty_infix, count_infix, IHl, IHr.
    cbn [binary_nodes nodes is_Mult is_Plus is_And is_Or]. lia.
  - simpl pretty. rewrite And_pretty_infix, count_infix, IHl, IHr.
    cbn [binary_nodes nodes is_Mult is_Plus is_And is_Or]. lia.
  - simpl pretty. rewrite Or_pretty_infix, count_infix, IHl, IHr.
    cbn [binary_nodes nodes is_Mult is_Plus is_And is_Or]. lia.
Qed.

Lemma nesting_pretty (e : Exp) :
  forall (d : nat) (t : string), nesting d (pretty e ++ t) = nesting d t.
Proof.
  induction e as [b|i|l IHl r IHr|l IHl r IHr|l IHl r IHr|l IHl r IHr];
    intros d t; simpl pretty;
    rewrite ?Mult_pretty_infix, ?Plus_pretty_infix, ?And_pretty_infix, ?Or_pretty_infix;
    unfold infix; rewrite ?append_assoc.
  - destruct b; reflexivity.
  - apply (nesting_plain int_char); [apply Itoa_int_char | reflexivity | reflexivity].
  - simpl. rewrite IHl. simpl. rewrite IHr. reflexivity.
  - simpl. rewrite IHl. simpl. rewrite IHr. reflexivity.
  - simpl. rewrite IHl. simpl. rewrite IHr. reflexivity.
  - simpl. rewrite IHl. simpl. rewrite IHr. reflexivity.
Qed.

Lemma pretty_balanced (e : Exp) : balanced (pretty e) = true.
Proof.
  unfold balanced.
  rewrite <- (append_nil_r (pretty e)), nesting_pretty. reflexivity.
Qed.

Lemma binary_nodes_by_kind (e : Exp) :
  binary_nodes e =
  (nodes is_Mult e + nodes is_Plus e + nodes is_And e + nodes is_Or e)%nat.
Proof.
  induction e; simpl; lia.
Qed.

(** C7. The printed string is well shaped: a binary node prints as one
    pair of parentheses around its left child, one of the four operator
    tokens and its right child; the parentheses of the whole string match;
    and the numbers of opening and of closing parentheses are both the
    number of binary nodes of the tree. Each operator character occurs as
    often as the nodes of its kind ask for. *)
Theorem pretty_shape (e : Exp) :
  count "(" (pretty e) = binary_nodes e /\
  count ")" (pretty e) = binary_nodes e /\
  count "(" (pretty e) = count ")" (pretty e) /\
  balanced (pretty e) = true /\
  count "*" (pretty e) = nodes is_Mult e /\
  count "+" (pretty e) = nodes is_Plus e /\
  count "&" (pretty e) = (2 * nodes is_And e)%nat /\
  count "|" (pretty e) = (2 * nodes is_Or e)%nat /\
  binary_nodes e = (nodes is_Mult e + nodes is_Plus e + nodes is_And e + nodes is_Or e)%nat /\
  (forall l r, children e = Some (l, r) ->
     exists op, In op ("+" :: "*" :: "&&" :: "||" :: nil) /\
                op_token e = Some op /\
                pretty e = ("(" ++ pretty l ++ op ++ pretty r ++ ")")%string).
Proof.
  assert (Ho : count "(" (pretty e) = binary_nodes e).
  { rewrite count_pretty by reflexivity. simpl. lia. }
  assert (Hc : count ")" (pretty e) = binary_nodes e).
  { rewrite count_pretty by reflexivity. simpl. lia. }
  repeat apply conj.
  - exact Ho.
  - exact Hc.
  - congruence.
  - apply pretty_balanced.
  - rewrite count_pretty by reflexivity. simpl. lia.
  - rewrite count_pretty by reflexivity. simpl. lia.
  - rewrite count_pretty by reflexivity. simpl. lia.
  - rewrite count_pretty by reflexivity. simpl. lia.
  - apply binary_nodes_by_kind.
  - intros l r Hch.
    destruct e as [b|i|e0 e1|e0 e1|e0 e1|e0 e1]; simpl in Hch; try discriminate;
      injection Hch as <- <-.
    + exists "*". simpl In. repeat split; [tauto|]. apply (pretty_binary (Mult e0 e1)); reflexivity.
    + exists "+". simpl In. repeat split; [tauto|]. apply (pretty_binary (Plus e0 e1)); reflexivity.
    + exists "&&". simpl In. repeat split; [tauto|]. apply (pretty_binary (And e0 e1)); reflexivity.
    + exists "||". simpl In. repeat split; [tauto|]. apply (pretty_binary (Or e0 e1)); reflexivity.
Qed.

(** The tree of the first run of [example13]: two binary nodes, printed
    as ["((1*2)+0)"]. *)
Lemma pretty_shape_witness :
  let e := Plus (Mult (Num 1) (Num 2)) (Num 0) in
  count "(" (pretty e) = 2%nat /\ count ")" (pretty e) = 2%nat /\
  balanced (pretty e) = true /\
  exists op, op_token e = Some op /\
             pretty e = ("(" ++ pretty (Mult (Num 1) (Num 2)) ++ op ++ pretty (Num 0) ++ ")")%string.
Proof.
  intros e.
  destruct (pretty_shape e) as (Ho & Hc & _ & Hb & _ & _ & _ & _ & _ & Hn).
  destruct (Hn (Mult (Num 1) (Num 2)) (Num 0) eq_refl) as (op & _ & Hop & Hs).
  repeat apply conj.
  - exact Ho.
  - exact Hc.
  - exact Hb.
  - exists op. split; [exact Hop | exact Hs].
Defined.

(** ** Results of eval *)

Lemma Result_flag (v : Val) :
  Result v -> flag v = ValueInt \/ flag v = ValueBool \/ flag v = Undefined.
Proof.
  intros [i|b|]; simpl; auto.
Qed.

Lemma Result_int (v : Val) : Result v -> flag v = ValueInt -> v = mkInt (valI v).
Proof.
  intros [i|b|]; simpl; intros H; try discriminate H; reflexivity.
Qed.

Lemma Result_bool (v : Val) : Result v -> flag v = ValueBool -> v = mkBool (valB v).
Proof.
  intros [i|b|]; simpl; intros H; try discriminate H; reflexivity.
Qed.

Lemma Result_undefined (v : Val) : Result v -> flag v = Undefined -> v = mkUndefined.
Proof.
  intros [i|b|]; simpl; intros H; try discriminate H; reflexivity.
Qed.

Lemma Mult_eval_Result (n1 n2 : Val) : Result (Mult_eval n1 n2).
Proof.
  unfold Mult_eval.
  destruct ((flag n1 =? ValueInt) && (flag n2 =? ValueInt)); constructor.
Qed.

Lemma Plus_eval_Result (n1 n2 : Val) : Result (Plus_eval n1 n2).
Proof.
  unfold Plus_eval.
  destruct ((flag n1 =? ValueInt) && (flag n2 =? ValueInt)); constructor.
Qed.

Lemma And_eval_Result (b1 b2 : Val) : Result (And_eval b1 b2).
Proof.
  unfold And_eval.
  destruct ((flag b1 =? ValueBool) && Bool.eqb (valB b1) false); [constructor|].
  destruct ((flag b1 =? ValueBool) && (flag b2 =? ValueBool)); constructor.
Qed.

Lemma Or_eval_Result (b1 b2 : Val) : Result (Or_eval b1 b2).
Proof.
  unfold Or_eval.
  destruct ((flag b1 =? ValueBool) && Bool.eqb (valB b1) true); [constructor|].
  destruct ((flag b1 =? ValueBool) && (flag b2 =? ValueBool)); constructor.
Qed.

Lemma eval_Result (e : Exp) : Result (eval e).
Proof.
  destruct e; simpl.
  - apply is_mkBool.
  - apply is_mkInt.
  - apply Mult_eval_Result.
  - apply Plus_eval_Result.
  - apply And_eval_Result.
  - apply Or_eval_Result.
Qed.

Lemma eval_flag_int (e : Exp) :
  flag (eval e) = ValueInt <-> exists i, eval e = mkInt i.
Proof.
  split.
  - intros H. exists (valI (eval e)). apply Result_int; [apply eval_Result | exact H].
  - intros [i ->]. reflexivity.
Qed.

Lemma eval_flag_bool (e : Exp) :
  flag (eval e) = ValueBool <-> exists b, eval e = mkBool b.
Proof.
  split.
  - intros H. exists (valB (eval e)). apply Result_bool; [apply eval_Result | exact H].
  - intros [b ->]. reflexivity.
Qed.

Lemma eval_flag_undefined (e : Exp) :
  flag (eval e) = Undefined <-> eval e = mkUndefined.
Proof.
  split.
  - apply Result_undefined, eval_Result.
  - intros ->. reflexivity.
Qed.

(** The four combining functions on the three shapes of a result. *)

Lemma And_eval_false_l (b2 : Val) : And_eval (mkBool false) b2 = mkBool false.
Proof. reflexivity. Qed.

Lemma And_eval_bools (x y : bool) : And_eval (mkBool x) (mkBool y) = mkBool (x && y).
Proof. destruct x; reflexivity. Qed.

Lemma And_eval_not_bool_l (b1 b2 : Val) :
  flag b1 <> ValueBool -> And_eval b1 b2 = mkUndefined.
Proof.
  intros H. apply Z.eqb_neq in H. unfold And_eval. now rewrite H.
Qed.

Lemma And_eval_true_not_bool (b2 : Val) :
  flag b2 <> ValueBool -> And_eval (mkBool true) b2 = mkUndefined.
Proof.
  intros H. apply Z.eqb_neq in H. unfold And_eval. simpl. now rewrite H.
Qed.

Lemma Or_eval_true_l (b2 : Val) : Or_eval (mkBool true) b2 = mkBool true.
Proof. reflexivity. Qed.

Lemma Or_eval_bools (x y : bool) : Or_eval (mkBool x) (mkBool y) = mkBool (x || y).
Proof. destruct x; reflexivity. Qed.

Lemma Or_eval_not_bool_l (b1 b2 : Val) :
  flag b1 <> ValueBool -> Or_eval b1 b2 = mkUndefined.
Proof.
  intros H. apply Z.eqb_neq in H. unfold Or_eval. now rewrite H.
Qed.

Lemma Or_eval_false_not_bool (b2 : Val) :
  flag b2 <> ValueBool -> Or_eval (mkBool false) b2 = mkUndefined.
Proof.
  intros H. apply Z.eqb_neq in H. unfold Or_eval. simpl. now rewrite H.
Qed.

Lemma Plus_eval_ints (a b : Z) : Plus_eval (mkInt a) (mkInt b) = mkInt (int_add a b).
Proof. reflexivity. Qed.

Lemma Mult_eval_ints (a b : Z) : Mult_eval (mkInt a) (mkInt b) = mkInt (int_mul a b).
Proof. reflexivity. Qed.

Lemma Plus_eval_not_ints (n1 n2 : Val) :
  flag n1 <> ValueInt \/ flag n2 <> ValueInt -> Plus_eval n1 n2 = mkUndefined.
Proof.
  intros H. unfold Plus_eval.
  destruct H as [H|H]; apply Z.eqb_neq in H; rewrite H; [reflexivity|].
  now rewrite andb_false_r.
Qed.

Lemma Mult_eval_not_ints (n1 n2 : Val) :
  flag n1 <> ValueInt \/ flag n2 <> ValueInt -> Mult_eval n1 n2 = mkUndefined.
Proof.
  intros H. unfold Mult_eval.
  destruct H as [H|H]; apply Z.eqb_neq in H; rewrite H; [reflexivity|].
  now rewrite andb_false_r.
Qed.

(** A result that is no [mkBool] has another flag, and likewise for
    [mkInt]. *)
Lemma not_bool_flag (e : Exp) :
  (forall b, eval e <> mkBool b) -> flag (eval e) <> ValueBool.
Proof.
  intros H Hf. apply eval_flag_bool in Hf. destruct Hf as [b Hb]. now apply (H b).
Qed.

Lemma not_int_flag (e : Exp) :
  (forall i, eval e <> mkInt i) -> flag (eval e) <> ValueInt.
Proof.
  intros H Hf. apply eval_flag_int in Hf. destruct Hf as [i Hi]. now apply (H i).
Qed.

(** ** And and Or *)

(** C1. [eval (And l r)] is [mkBool false] whenever [eval l] is
    [mkBool false], whatever [eval r] is (an integer and an undefined right
    operand included); when both results are booleans it is the boolean
    of their conjunction; in every remaining case it is [mkUndefined]. In
    particular [eval (And (Bool false) (Num 1)) = mkBool false]. *)
Theorem And_eval_rules (l r : Exp) :
  (eval l = mkBool false -> eval (And l r) = mkBool false) /\
  (forall b1 b2, eval l = mkBool b1 -> eval r = mkBool b2 ->
     eval (And l r) = mkBool (b1 && b2)) /\
  (eval l <> mkBool false ->
   (forall b1 b2, ~ (eval l = mkBool b1 /\ eval r = mkBool b2)) ->
     eval (And l r) = mkUndefined) /\
  eval (And (Bool false) (Num 1)) = mkBool false /\
  (eval (Plus (Bool true) (Num 1)) = mkUndefined /\
   eval (And (Bool false) (Plus (Bool true) (Num 1))) = mkBool false).
Proof.
  repeat apply conj; try reflexivity.
  - intros Hl. simpl. rewrite Hl. apply And_eval_false_l.
  - intros b1 b2 Hl Hr. simpl. rewrite Hl, Hr. apply And_eval_bools.
  - intros Hnf Hnb. simpl.
    destruct (Z.eq_dec (flag (eval l)) ValueBool) as [Hf|Hf].
    + apply eval_flag_bool in Hf. destruct Hf as [b1 Hl].
      destruct b1; [|contradiction].
      rewrite Hl. apply And_eval_true_not_bool.
      intros Hf. apply eval_flag_bool in Hf. destruct Hf as [b2 Hr].
      now apply (Hnb true b2).
    + now apply And_eval_not_bool_l.
Qed.

(** The three cases of [And] on concrete trees: a deciding [false] over an
    undefined right operand, two booleans, and an integer on the left. *)
Lemma And_eval_rules_witness :
  eval (And (Bool false) (Mult (Num 1) (Bool true))) = mkBool false /\
  eval (And (Bool true) (Bool false)) = mkBool (true && false) /\
  eval (And (Num 1) (Bool false)) = mkUndefined.
Proof.
  split; [|split].
  - apply (proj1 (And_eval_rules (Bool false) (Mult (Num 1) (Bool true)))).
    reflexivity.
  - apply (proj1 (proj2 (And_eval_rules (Bool true) (Bool false))) true false);
      reflexivity.
  - apply (proj1 (proj2 (proj2 (And_eval_rules (Num 1) (Bool false))))).
    + discriminate.
    + intros b1 b2 [H _]. discriminate H.
Defined.

(** C2. [eval (Or l r)] is [mkBool true] whenever [eval l] is
    [mkBool true], whatever [eval r] is; when both results are booleans it
    is the boolean of their disjunction; in every remaining case it is
    [mkUndefined]. In particular [Or (Bool true) (Num 1)] gives
    [mkBool true], [Or (Bool false) (Bool false)] gives [mkBool false] and
    [Or (Bool false) (Num 1)] gives [mkUndefined]. *)
Theorem Or_eval_rules (l r : Exp) :
  (eval l = mkBool true -> eval (Or l r) = mkBool true) /\
  (forall b1 b2, eval l = mkBool b1 -> eval r = mkBool b2 ->
     eval (Or l r) = mkBool (b1 || b2)) /\
  (eval l <> mkBool true ->
   (forall b1 b2, ~ (eval l = mkBool b1 /\ eval r = mkBool b2)) ->
     eval (Or l r) = mkUndefined) /\
  eval (Or (Bool true) (Num 1)) = mkBool true /\
  eval (Or (Bool false) (Bool false)) = mkBool false /\
  eval (Or (Bool false) (Num 1)) = mkUndefined.
Proof.
  repeat apply conj; try reflexivity.
  - intros Hl. simpl. rewrite Hl. apply Or_eval_true_l.
  - intros b1 b2 Hl Hr. simpl. rewrite Hl, Hr. apply Or_eval_bools.
  - intros Hnt Hnb. simpl.
    destruct (Z.eq_dec (flag (eval l)) ValueBool) as [Hf|Hf].
    + apply eval_flag_bool in Hf. destruct Hf as [b1 Hl].
      destruct b1; [contradiction|].
      rewrite Hl. apply Or_eval_false_not_bool.
      intros Hf. apply eval_flag_bool in Hf. destruct Hf as [b2 Hr].
      now apply (Hnb false b2).
    + now apply Or_eval_not_bool_l.
Qed.

(** The three cases of [Or] on concrete trees. *)
Lemma Or_eval_rules_witness :
  eval (Or (Bool true) (Plus (Num 1) (Bool true))) = mkBool true /\
  eval (Or (Bool false) (Bool true)) = mkBool (false || true) /\
  eval (Or (Bool false) (Num 1)) = mkUndefined.
Proof.
  split; [|split].
  - apply (proj1 (Or_eval_rules (Bool true) (Plus (Num 1) (Bool true)))).
    reflexivity.
  - apply (proj1 (proj2 (Or_eval_rules (Bool false) (Bool true))) false true);
      reflexivity.
  - apply (proj1 (proj2 (proj2 (Or_eval_rules (Bool false) (Num 1))))).
    + discriminate.
    + intros b1 b2 [_ H]. discriminate H.
Defined.

(** C10. The masking is on the left only: when [eval l] is no boolean,
    [eval (And l r)] and [eval (Or l r)] are [mkUndefined] for every [r],
    also for an [r] that evaluates to [mkBool false] or to [mkBool true]. *)
Theorem masking_left_biased (l r : Exp) :
  (forall b, eval l <> mkBool b) ->
  eval (And l r) = mkUndefined /\ eval (Or l r) = mkUndefined.
Proof.
  intros Hl. apply not_bool_flag in Hl. simpl. split.
  - now apply And_eval_not_bool_l.
  - now apply Or_eval_not_bool_l.
Qed.

(** [And (Num 1) (Bool false)] and [Or (Num 1) (Bool true)] are undefined,
    while the mirrored trees evaluate to the deciding boolean. *)
Lemma masking_left_biased_witness :
  (eval (And (Num 1) (Bool false)) = mkUndefined /\
   eval (And (Bool false) (Num 1)) = mkBool false) /\
  (eval (Or (Num 1) (Bool true)) = mkUndefined /\
   eval (Or (Bool true) (Num 1)) = mkBool true).
Proof.
  split; split.
  - apply (masking_left_biased (Num 1) (Bool false)). intros b. discriminate.
  - reflexivity.
  - apply (masking_left_biased (Num 1) (Bool true)). intros b. discriminate.
  - reflexivity.
Defined.

(** ** Plus and Mult *)

(** C3. [eval (Plus l r)] is the integer sum (on Go's [int]) of the two
    results when both are integers and [mkUndefined] in every other case,
    and [eval (Mult l r)] likewise with the product; nothing is masked, as
    in [eval (Plus (Bool true) (Num 1)) = mkUndefined]. A sum or product
    that fits Go's [int] is the mathematical one. *)
Theorem arith_eval_rules (l r : Exp) :
  (forall a b, eval l = mkInt a -> eval r = mkInt b ->
     eval (Plus l r) = mkInt (int_add a b) /\
     eval (Mult l r) = mkInt (int_mul a b)) /\
  ((forall a b, ~ (eval l = mkInt a /\ eval r = mkInt b)) ->
     eval (Plus l r) = mkUndefined /\ eval (Mult l r) = mkUndefined) /\
  (forall a b, eval l = mkInt a -> eval r = mkInt b ->
     (in_int (a + b) = true -> eval (Plus l r) = mkInt (a + b)) /\
     (in_int (a * b) = true -> eval (Mult l r) = mkInt (a * b))) /\
  eval (Plus (Bool true) (Num 1)) = mkUndefined /\
  eval (Plus (Num 1) (Bool true)) = mkUndefined /\
  eval (Mult (Bool true) (Num 1)) = mkUndefined /\
  eval (Mult (Num 1) (Bool true)) = mkUndefined.
Proof.
  repeat apply conj; try reflexivity.
  - intros a b Ha Hb. simpl. rewrite Ha, Hb. split.
    + apply Plus_eval_ints.
    + apply Mult_eval_ints.
  - intros Hn.
    assert (Hf : flag (eval l) <> ValueInt \/ flag (eval r) <> ValueInt).
    { destruct (Z.eq_dec (flag (eval l)) ValueInt) as [Hl|Hl]; [|now left].
      right. intros Hr.
      apply eval_flag_int in Hl, Hr. destruct Hl as [a Ha], Hr as [b Hb].
      now apply (Hn a b). }
    simpl. split.
    + now apply Plus_eval_not_ints.
    + now apply Mult_eval_not_ints.
  - intros a b Ha Hb. simpl. rewrite Ha, Hb, Plus_eval_ints, Mult_eval_ints.
    unfold int_add, int_mul. split; intros Hfit; now rewrite wrap_small.
Qed.

(** Both cases of the arithmetic nodes on concrete trees. *)
Lemma arith_eval_rules_witness :
  (eval (Plus (Mult (Num 2) (Num 3)) (Num 4)) = mkInt (int_add 6 4) /\
   eval (Mult (Mult (Num 2) (Num 3)) (Num 4)) = mkInt (int_mul 6 4)) /\
  (eval (Plus (Num 1) (And (Bool true) (Num 0))) = mkUndefined /\
   eval (Mult (Num 1) (And (Bool true) (Num 0))) = mkUndefined) /\
  eval (Plus (Mult (Num 2) (Num 3)) (Num 4)) = mkInt (6 + 4).
Proof.
  split; [|split].
  - apply (proj1 (arith_eval_rules (Mult (Num 2) (Num 3)) (Num 4)) 6 4);
      reflexivity.
  - apply (proj1 (proj2 (arith_eval_rules (Num 1) (And (Bool true) (Num 0))))).
    intros a b [_ H]. discriminate H.
  - apply (proj1 (proj2 (proj2 (arith_eval_rules (Mult (Num 2) (Num 3)) (Num 4)))) 6 4);
      reflexivity.
Defined.

(** C4. On two integer literals [Plus] gives the sum and [Mult] the
    product in the arithmetic of Go's [int]: the value of [int] that is
    congruent to [a + b] (to [a * b]) modulo [2 ^ intSize]; it is [a + b]
    ([a * b]) itself whenever that fits an [int]. *)
Theorem arith_soundness (a b : Z) :
  eval (Plus (Num a) (Num b)) = mkInt (wrap (a + b)) /\
  eval (Mult (Num a) (Num b)) = mkInt (wrap (a * b)) /\
  (minInt <= wrap (a + b) <= maxInt /\
   wrap (a + b) mod 2 ^ intSize = (a + b) mod 2 ^ intSize) /\
  (minInt <= wrap (a * b) <= maxInt /\
   wrap (a * b) mod 2 ^ intSize = (a * b) mod 2 ^ intSize) /\
  (in_int (a + b) = true -> eval (Plus (Num a) (Num b)) = mkInt (a + b)) /\
  (in_int (a * b) = true -> eval (Mult (Num a) (Num b)) = mkInt (a * b)).
Proof.
  assert (Hp : eval (Plus (Num a) (Num b)) = mkInt (wrap (a + b))) by apply Plus_eval_ints.
  assert (Hm : eval (Mult (Num a) (Num b)) = mkInt (wrap (a * b))) by apply Mult_eval_ints.
  repeat apply conj.
  - exact Hp.
  - exact Hm.
  - apply wrap_range.
  - apply wrap_range.
  - apply wrap_mod.
  - apply wrap_range.
  - apply wrap_range.
  - apply wrap_mod.
  - intros Hfit. now rewrite Hp, wrap_small.
  - intros Hfit. now rewrite Hm, wrap_small.
Qed.

(** A sum and a product that fit, on concrete literals. *)
Lemma arith_soundness_witness :
  eval (Plus (Num 20) (Num (-22))) = mkInt (20 + -22) /\
  eval (Mult (Num 20) (Num (-22))) = mkInt (20 * -22).
Proof.
  destruct (arith_soundness 20 (-22)) as (_ & _ & _ & _ & Hp & Hm).
  split.
  - apply Hp. reflexivity.
  - apply Hm. reflexivity.
Defined.

(** Past the largest [int] the sum wraps around to the smallest. *)
Example Plus_overflow :
  eval (Plus (Num maxInt) (Num 1)) = mkInt minInt /\
  eval (Mult (Num maxInt) (Num 2)) = mkInt (-2).
Proof. split; reflexivity. Qed.

(** ** Undefined results and type mismatches *)

Lemma type_of_sound (e : Exp) :
  match type_of e with
  | Some TInt => exists i, eval e = mkInt i
  | Some TBool => exists b, eval e = mkBool b
  | None => True
  end.
Proof.
  induction e as [x|x|l IHl r IHr|l IHl r IHr|l IHl r IHr|l IHl r IHr]; simpl.
  - now exists x.
  - now exists x.
  - destruct (type_of l) as [[|]|], (type_of r) as [[|]|]; simpl; trivial.
    destruct IHl as [a ->], IHr as [b ->]. now exists (int_mul a b).
  - destruct (type_of l) as [[|]|], (type_of r) as [[|]|]; simpl; trivial.
    destruct IHl as [a ->], IHr as [b ->]. now exists (int_add a b).
  - destruct (type_of l) as [[|]|], (type_of r) as [[|]|]; simpl; trivial.
    destruct IHl as [a ->], IHr as [b ->]. exists (a && b). apply And_eval_bools.
  - destruct (type_of l) as [[|]|], (type_of r) as [[|]|]; simpl; trivial.
    destruct IHl as [a ->], IHr as [b ->]. exists (a || b). apply Or_eval_bools.
Qed.

Lemma undefined_is_mismatch (e : Exp) : eval e = mkUndefined -> type_of e = None.
Proof.
  intros H. pose proof (type_of_sound e) as Ht.
  destruct (type_of e) as [[|]|]; [| |reflexivity].
  - destruct Ht as [i Hi]. rewrite H in Hi. discriminate Hi.
  - destruct Ht as [b Hb]. rewrite H in Hb. discriminate Hb.
Qed.

Lemma eval_in_int (e : Exp) : int_leaves e = true -> in_int (valI (eval e)) = true.
Proof.
  destruct e as [x|x|l r|l r|l r|l r]; simpl; intros Hl; try exact Hl; clear Hl.
  - unfold Mult_eval. destruct (_ && _); simpl; [apply wrap_in_int | reflexivity].
  - unfold Plus_eval. destruct (_ && _); simpl; [apply wrap_in_int | reflexivity].
  - unfold And_eval. destruct (_ && _); [reflexivity|]. destruct (_ && _); reflexivity.
  - unfold Or_eval. destruct (_ && _); [reflexivity|]. destruct (_ && _); reflexivity.
Qed.

(** ** Method calls on trees never panic *)

Lemma box_pretty (e : Exp) : Iface.pretty (Iface.box e) = Iface.Ok (pretty e).
Proof.
  induction e as [x|x|l IHl r IHr|l IHl r IHr|l IHl r IHr|l IHl r IHr]; simpl;
    try rewrite IHl, IHr; reflexivity.
Qed.

Lemma box_eval (e : Exp) : Iface.eval (Iface.box e) = Iface.Ok (eval e).
Proof.
  induction e as [x|x|l IHl r IHr|l IHl r IHr|l IHl r IHr|l IHl r IHr]; simpl;
    try rewrite IHl, IHr; reflexivity.
Qed.

Lemma box_is_tree (e : Exp) : Iface.is_tree (Iface.box e) = true.
Proof.
  induction e as [x|x|l IHl r IHr|l IHl r IHr|l IHl r IHr|l IHl r IHr]; simpl;
    try rewrite IHl, IHr; reflexivity.
Qed.

(** The interface values without [nil] are the trees. *)
Lemma is_tree_box (x : Iface.value) :
  Iface.is_tree x = true -> exists e, x = Iface.box e.
Proof.
  induction x as [|b|i|x0 IH0 x1 IH1|x0 IH0 x1 IH1|x0 IH0 x1 IH1|x0 IH0 x1 IH1];
    simpl; intros H; try discriminate H;
    try (apply andb_true_iff in H; destruct H as [H0 H1];
         destruct (IH0 H0) as [e0 ->], (IH1 H1) as [e1 ->]).
  - now exists (Bool b).
  - now exists (Num i).
  - now exists (Mult e0 e1).
  - now exists (Plus e0 e1).
  - now exists (And e0 e1).
  - now exists (Or e0 e1).
Qed.

Lemma bind2_panics {A B : Type} (c0 c1 : Iface.result A) (f : A -> A -> B) :
  Iface.bind c0 (fun a0 => Iface.bind c1 (fun a1 => Iface.Ok (f a0 a1))) = Iface.Panic <->
  c0 = Iface.Panic \/ c1 = Iface.Panic.
Proof.
  destruct c0 as [a0|], c1 as [a1|]; simpl; split; intros H; auto;
    try discriminate H; destruct H as [H|H]; discriminate H.
Qed.

(** A [nil] somewhere in the value is the one way to a panic. *)
Lemma eval_panics (x : Iface.value) :
  Iface.eval x = Iface.Panic <-> Iface.is_tree x = false.
Proof.
  induction x as [|b|i|x0 IH0 x1 IH1|x0 IH0 x1 IH1|x0 IH0 x1 IH1|x0 IH0 x1 IH1];
    simpl.
  - split; reflexivity.
  - split; discriminate.
  - split; discriminate.
  - now rewrite bind2_panics, andb_false_iff, IH0, IH1.
  - now rewrite bind2_panics, andb_false_iff, IH0, IH1.
  - now rewrite bind2_panics, andb_false_iff, IH0, IH1.
  - now rewrite bind2_panics, andb_false_iff, IH0, IH1.
Qed.

Lemma pretty_panics (x : Iface.value) :
  Iface.pretty x = Iface.Panic <-> Iface.is_tree x = false.
Proof.
  induction x as [|b|i|x0 IH0 x1 IH1|x0 IH0 x1 IH1|x0 IH0 x1 IH1|x0 IH0 x1 IH1];
    simpl.
  - split; reflexivity.
  - split; discriminate.
  - split; discriminate.
  - now rewrite bind2_panics, andb_false_iff, IH0, IH1.
  - now rewrite bind2_panics, andb_false_iff, IH0, IH1.
  - now rewrite bind2_panics, andb_false_iff, IH0, IH1.
  - now rewrite bind2_panics, andb_false_iff, IH0, IH1.
Qed.

(** C6. [pretty] and [eval] are total on trees: the method call on the
    interface value of any tree, ill-typed ones included, returns (the
    string [pretty e], the value [eval e]) without a panic; the value
    returned is [mkInt i], [mkBool b] or [mkUndefined], its integer is one
    of Go's [int] when the literals of the tree are, and it is
    [mkUndefined] only for a tree with a type mismatch. *)
Theorem pretty_eval_total (e : Exp) :
  Iface.pretty (Iface.box e) = Iface.Ok (pretty e) /\
  Iface.eval (Iface.box e) = Iface.Ok (eval e) /\
  Result (eval e) /\
  (int_leaves e = true -> in_int (valI (eval e)) = true) /\
  (eval e = mkUndefined -> type_of e = None).
Proof.
  repeat apply conj.
  - apply box_pretty.
  - apply box_eval.
  - apply eval_Result.
  - apply eval_in_int.
  - apply undefined_is_mismatch.
Qed.

(** An ill-typed tree with integer literals: both calls return, and the
    undefined result comes with a type mismatch. *)
Lemma pretty_eval_total_witness :
  let e := Plus (And (Bool true) (Num 0)) (Num 7) in
  Iface.pretty (Iface.box e) = Iface.Ok "((true&&0)+7)" /\
  Iface.eval (Iface.box e) = Iface.Ok mkUndefined /\
  in_int (valI (eval e)) = true /\
  type_of e = None.
Proof.
  intros e.
  destruct (pretty_eval_total e) as (Hp & He & _ & Hi & Ht).
  repeat apply conj.
  - exact Hp.
  - exact He.
  - apply Hi. reflexivity.
  - apply Ht. reflexivity.
Defined.

(** ** How an undefined child reaches its parent *)

(** C8. The one error representation is the value [mkUndefined]: the
    result of [eval] carries one of the three flags, the evaluation of a
    tree with an ill-typed subtree still returns a value (no panic), and an
    undefined child [e] reaches the parent by the rules of the node alone:
    [Plus] and [Mult] are undefined with it on either side; [And] and [Or]
    are undefined with it on the left, and with it on the right unless the
    left sibling decides ([mkBool false] for [And], [mkBool true] for
    [Or]). *)
Theorem undefined_propagation (e : Exp) :
  (flag (eval e) = ValueInt \/ flag (eval e) = ValueBool \/ flag (eval e) = Undefined) /\
  Result (eval e) /\
  Iface.eval (Iface.box e) = Iface.Ok (eval e) /\
  (eval e = mkUndefined ->
   forall s : Exp,
     (eval (Plus e s) = mkUndefined /\ eval (Plus s e) = mkUndefined) /\
     (eval (Mult e s) = mkUndefined /\ eval (Mult s e) = mkUndefined) /\
     (eval (And e s) = mkUndefined /\ eval (Or e s) = mkUndefined) /\
     (eval s = mkBool false -> eval (And s e) = mkBool false) /\
     (eval s <> mkBool false -> eval (And s e) = mkUndefined) /\
     (eval s = mkBool true -> eval (Or s e) = mkBool true) /\
     (eval s <> mkBool true -> eval (Or s e) = mkUndefined) /\
     Iface.eval (Iface.box (Plus e s)) = Iface.Ok mkUndefined /\
     Iface.eval (Iface.box (And s e)) = Iface.Ok (eval (And s e))).
Proof.
  split; [apply Result_flag, eval_Result|].
  split; [apply eval_Result|].
  split; [apply box_eval|].
  intros He s.
  assert (Hi : flag (eval e) <> ValueInt) by (rewrite He; discriminate).
  assert (Hb : flag (eval e) <> ValueBool) by (rewrite He; discriminate).
  assert (Hpl : eval (Plus e s) = mkUndefined) by (apply Plus_eval_not_ints; now left).
  repeat apply conj.
  - exact Hpl.
  - apply Plus_eval_not_ints. now right.
  - apply Mult_eval_not_ints. now left.
  - apply Mult_eval_not_ints. now right.
  - now apply And_eval_not_bool_l.
  - now apply Or_eval_not_bool_l.
  - intros Hs. simpl. rewrite Hs. apply And_eval_false_l.
  - intros Hs. simpl.
    destruct (Z.eq_dec (flag (eval s)) ValueBool) as [Hf|Hf].
    + apply eval_flag_bool in Hf. destruct Hf as [[|] Hv]; [|contradiction].
      rewrite Hv. now apply And_eval_true_not_bool.
    + now apply And_eval_not_bool_l.
  - intros Hs. simpl. rewrite Hs. apply Or_eval_true_l.
  - intros Hs. simpl.
    destruct (Z.eq_dec (flag (eval s)) ValueBool) as [Hf|Hf].
    + apply eval_flag_bool in Hf. destruct Hf as [[|] Hv]; [contradiction|].
      rewrite Hv. now apply Or_eval_false_not_bool.
    + now apply Or_eval_not_bool_l.
  - now rewrite box_eval, Hpl.
  - apply box_eval.
Qed.

(** The undefined child [And (Bool true) (Num 0)] next to the sibling
    [Bool false]: masked under [And] on the right of it, not under [Or]
    nor on its left. *)
Lemma undefined_propagation_witness :
  let e := And (Bool true) (Num 0) in
  let s := Bool false in
  eval (Plus s e) = mkUndefined /\
  eval (And e s) = mkUndefined /\
  eval (And s e) = mkBool false /\
  eval (Or s e) = mkUndefined.
Proof.
  intros e s.
  destruct (undefined_propagation e) as (_ & _ & _ & H).
  destruct (H eq_refl s) as ((_ & Hp) & _ & (Ha & _) & Hm & _ & _ & Ho & _).
  repeat apply conj.
  - exact Hp.
  - exact Ha.
  - apply Hm. reflexivity.
  - apply Ho. discriminate.
Defined.

(** ** showVal *)

Lemma showVal_int (v : Val) : flag v = ValueInt -> showVal v = Itoa (valI v).
Proof.
  intros H. unfold showVal. now rewrite H.
Qed.

Lemma showVal_bool (v : Val) :
  flag v = ValueBool -> showVal v = if valB v then "true" else "false".
Proof.
  intros H. unfold showVal. now rewrite H.
Qed.

Lemma showVal_undefined (v : Val) : flag v = Undefined -> showVal v = "Undefined".
Proof.
  intros H. unfold showVal. now rewrite H.
Qed.

(** A flag that is none of the three constants falls through the switch. *)
Lemma showVal_other (v : Val) :
  flag v <> ValueInt -> flag v <> ValueBool -> flag v <> Undefined -> showVal v = "".
Proof.
  intros Hi Hb Hu. apply Z.eqb_neq in Hi, Hb, Hu.
  unfold showVal. now rewrite Hi, Hb, Hu.
Qed.

(** C9. [showVal] maps a value to a string by its flag: [Undefined] to
    ["Undefined"], [ValueInt] to the decimal string of the integer,
    [ValueBool] to ["true"] or ["false"]; so [showVal (eval e)] is what
    [pretty] prints for the literal of the result, and it is ["Undefined"]
    exactly when [eval e = mkUndefined]. *)
Theorem showVal_by_flag :
  (forall v, flag v = Undefined -> showVal v = "Undefined") /\
  (forall v, flag v = ValueInt ->
     showVal v = Itoa (valI v) /\ decimal_value (showVal v) = Some (valI v)) /\
  (forall v, flag v = ValueBool -> showVal v = if valB v then "true" else "false") /\
  (forall e : Exp,
     (forall i, eval e = mkInt i -> showVal (eval e) = pretty (Num i)) /\
     (forall b, eval e = mkBool b -> showVal (eval e) = pretty (Bool b)) /\
     (showVal (eval e) = "Undefined" <-> eval e = mkUndefined)).
Proof.
  repeat apply conj.
  - apply showVal_undefined.
  - intros v Hv. rewrite (showVal_int v Hv). split; [reflexivity | apply Itoa_decimal].
  - apply showVal_bool.
  - intros e. repeat apply conj.
    + intros i ->. reflexivity.
    + intros b ->. reflexivity.
    + intros Hs. destruct (eval_Result e) as [i|b|].
      * exfalso. apply (Itoa_not_Undefined i). exact Hs.
      * destruct b; discriminate Hs.
      * reflexivity.
    + intros ->. reflexivity.
Qed.

(** [showVal] on the results of the three runs of [example13]. *)
Lemma showVal_by_flag_witness :
  showVal (eval (Plus (Mult (Num 1) (Num 2)) (Num 0))) = pretty (Num 2) /\
  showVal (eval (Or (Bool true) (Num 0))) = pretty (Bool true) /\
  showVal (eval (And (Bool true) (Num 0))) = "Undefined" /\
  eval (Or (Bool false) (Num 0)) = mkUndefined.
Proof.
  destruct showVal_by_flag as (Hu & _ & _ & He).
  repeat apply conj.
  - apply (proj1 (He (Plus (Mult (Num 1) (Num 2)) (Num 0))) 2). reflexivity.
  - apply (proj1 (proj2 (He (Or (Bool true) (Num 0)))) true). reflexivity.
  - apply Hu. reflexivity.
  - apply (proj2 (proj2 (He (Or (Bool false) (Num 0))))). reflexivity.
Defined.

(** ** The three runs of example13 *)

Example example13_run1 :
  let ast := Build.plus (Build.mult (Build.number 1) (Build.number 2)) (Build.number 0) in
  pretty ast = "((1*2)+0)" /\ eval ast = mkInt 2 /\ showVal (eval ast) = "2".
Proof. repeat split. Qed.

Example example13_run2 :
  let ast := Build.and (Build.boolean true) (Build.number 0) in
  pretty ast = "(true&&0)" /\ eval ast = mkUndefined /\ showVal (eval ast) = "Undefined".
Proof. repeat split. Qed.

Example example13_run3 :
  let ast := Build.or (Build.boolean false) (Build.number 0) in
  pretty ast = "(false||0)" /\ eval ast = mkUndefined /\ showVal (eval ast) = "Undefined".
Proof. repeat split. Qed.

Example And_true_propagation :
  eval (And (Bool true) (Bool true)) = mkBool true /\
  eval (And (Bool true) (Num 1)) = mkUndefined.
Proof. split; reflexivity. Qed.

(** * Further properties *)

(** ** Arithmetic of int *)

Lemma wrap_congr (x y : Z) :
  x mod 2 ^ intSize = y mod 2 ^ intSize -> wrap x = wrap y.
Proof.
  intros H. unfold wrap, wrapN.
  rewrite <- (Zplus_mod_idemp_l x), <- (Zplus_mod_idemp_l y), H.
  reflexivity.
Qed.

Lemma wrap_add_l (a b : Z) : wrap (wrap a + b) = wrap (a + b).
Proof.
  apply wrap_congr.
  rewrite <- Zplus_mod_idemp_l, wrap_mod, Zplus_mod_idemp_l. reflexivity.
Qed.

Lemma wrap_add_r (a b : Z) : wrap (a + wrap b) = wrap (a + b).
Proof.
  rewrite (Z.add_comm a (wrap b)), wrap_add_l. f_equal. lia.
Qed.

Lemma wrap_mul_l (a b : Z) : wrap (wrap a * b) = wrap (a * b).
Proof.
  apply wrap_congr.
  rewrite <- Zmult_mod_idemp_l, wrap_mod, Zmult_mod_idemp_l. reflexivity.
Qed.

Lemma wrap_mul_r (a b : Z) : wrap (a * wrap b) = wrap (a * b).
Proof.
  rewrite (Z.mul_comm a (wrap b)), wrap_mul_l. f_equal. lia.
Qed.

Lemma int_add_comm (a b : Z) : int_add a b = int_add b a.
Proof. unfold int_add. f_equal. lia. Qed.

Lemma int_mul_comm (a b : Z) : int_mul a b = int_mul b a.
Proof. unfold int_mul. f_equal. lia. Qed.

Lemma int_add_assoc (a b c : Z) : int_add (int_add a b) c = int_add a (int_add b c).
Proof.
  unfold int_add. rewrite wrap_add_l, wrap_add_r. f_equal. lia.
Qed.

Lemma int_mul_assoc (a b c : Z) : int_mul (int_mul a b) c = int_mul a (int_mul b c).
Proof.
  unfold int_mul. rewrite wrap_mul_l, wrap_mul_r. f_equal. lia.
Qed.

Lemma int_mul_add_distr (a b c : Z) :
  int_mul a (int_add b c) = int_add (int_mul a b) (int_mul a c).
Proof.
  unfold int_mul, int_add. rewrite wrap_mul_r, wrap_add_l, wrap_add_r. f_equal. lia.
Qed.

(** ** Algebraic laws of the evaluator *)

(** Case analysis on the operands of a combining function: is the flag the
    one tested, and which boolean is carried. *)
Ltac flag_simpl :=
  cbn [flag valI valB mkInt mkBool mkUndefined andb orb Bool.eqb
       Z.eqb Pos.eqb ValueInt ValueBool Undefined].

Ltac by_flags :=
  repeat match goal with
         | v : Val |- _ => destruct v as [? ? []]
         end;
  flag_simpl;
  repeat match goal with
         | |- context [?f =? ?k] => is_var f; destruct (f =? k); flag_simpl
         end.

Lemma Plus_eval_comm (a b : Val) : Plus_eval a b = Plus_eval b a.
Proof.
  unfold Plus_eval. by_flags; try reflexivity; now rewrite int_add_comm.
Qed.

Lemma Mult_eval_comm (a b : Val) : Mult_eval a b = Mult_eval b a.
Proof.
  unfold Mult_eval. by_flags; try reflexivity; now rewrite int_mul_comm.
Qed.

Lemma Plus_eval_assoc (a b c : Val) :
  Plus_eval (Plus_eval a b) c = Plus_eval a (Plus_eval b c).
Proof.
  unfold Plus_eval. by_flags; try reflexivity; now rewrite int_add_assoc.
Qed.

Lemma Mult_eval_assoc (a b c : Val) :
  Mult_eval (Mult_eval a b) c = Mult_eval a (Mult_eval b c).
Proof.
  unfold Mult_eval. by_flags; try reflexivity; now rewrite int_mul_assoc.
Qed.

Lemma Mult_Plus_eval_distr (a b c : Val) :
  Mult_eval a (Plus_eval b c) = Plus_eval (Mult_eval a b) (Mult_eval a c).
Proof.
  unfold Mult_eval, Plus_eval. by_flags; try reflexivity; now rewrite int_mul_add_distr.
Qed.

Lemma And_eval_assoc (a b c : Val) :
  And_eval (And_eval a b) c = And_eval a (And_eval b c).
Proof.
  unfold And_eval. by_flags; reflexivity.
Qed.

Lemma Or_eval_assoc (a b c : Val) :
  Or_eval (Or_eval a b) c = Or_eval a (Or_eval b c).
Proof.
  unfold Or_eval. by_flags; reflexivity.
Qed.

Lemma And_Or_eval_distr (a b c : Val) :
  And_eval a (Or_eval b c) = Or_eval (And_eval a b) (And_eval a c).
Proof.
  unfold And_eval, Or_eval. by_flags; reflexivity.
Qed.

Lemma Or_And_eval_distr (a b c : Val) :
  Or_eval a (And_eval b c) = And_eval (Or_eval a b) (Or_eval a c).
Proof.
  unfold And_eval, Or_eval. by_flags; reflexivity.
Qed.

(** X1. Addition and multiplication nodes are commutative and associative
    for all operands, ill-typed and overflowing ones included: swapping or
    regrouping the operands never changes the result of [eval]. *)
Theorem arith_comm_assoc (a b c : Exp) :
  eval (Plus a b) = eval (Plus b a) /\
  eval (Mult a b) = eval (Mult b a) /\
  eval (Plus (Plus a b) c) = eval (Plus a (Plus b c)) /\
  eval (Mult (Mult a b) c) = eval (Mult a (Mult b c)).
Proof.
  simpl. repeat apply conj.
  - apply Plus_eval_comm.
  - apply Mult_eval_comm.
  - apply Plus_eval_assoc.
  - apply Mult_eval_assoc.
Qed.

(** X2. Multiplication distributes over addition on both sides, for all
    operands: an undefined or boolean operand makes both sides
    undefined, and on integers the wrapped results agree. *)
Theorem Mult_Plus_distr (a b c : Exp) :
  eval (Mult a (Plus b c)) = eval (Plus (Mult a b) (Mult a c)) /\
  eval (Mult (Plus b c) a) = eval (Plus (Mult b a) (Mult c a)).
Proof.
  simpl. split.
  - apply Mult_Plus_eval_distr.
  - rewrite (Mult_eval_comm (Plus_eval _ _)), (Mult_eval_comm (eval b)),
      (Mult_eval_comm (eval c)).
    apply Mult_Plus_eval_distr.
Qed.

(** X3. [And] and [Or] are associative and distribute over each other
    from the left for all operands, although the masking makes neither of
    them commutative. *)
Theorem logic_assoc_distr (a b c : Exp) :
  eval (And (And a b) c) = eval (And a (And b c)) /\
  eval (Or (Or a b) c) = eval (Or a (Or b c)) /\
  eval (And a (Or b c)) = eval (Or (And a b) (And a c)) /\
  eval (Or a (And b c)) = eval (And (Or a b) (Or a c)).
Proof.
  simpl. repeat apply conj.
  - apply And_eval_assoc.
  - apply Or_eval_assoc.
  - apply And_Or_eval_distr.
  - apply Or_And_eval_distr.
Qed.

(** X4. The neutral literals can be dropped exactly where the types
    allow it: [e + 0] and [e * 1] evaluate as [e] when [e] is no boolean
    (and its literals are Go integers), [true && e], [e && true],
    [false || e] and [e || false] evaluate as [e] when [e] is no integer. *)
Theorem unit_laws (e : Exp) :
  (flag (eval e) <> ValueBool -> int_leaves e = true ->
     eval (Plus e (Num 0)) = eval e /\ eval (Mult e (Num 1)) = eval e) /\
  (flag (eval e) <> ValueInt ->
     eval (And (Bool true) e) = eval e /\ eval (And e (Bool true)) = eval e /\
     eval (Or (Bool false) e) = eval e /\ eval (Or e (Bool false)) = eval e).
Proof.
  split.
  - intros Hb Hl. pose proof (eval_in_int e Hl) as Hi. simpl.
    destruct (eval_Result e) as [i|b|]; [|now contradiction Hb|split; reflexivity].
    simpl in Hi. rewrite Plus_eval_ints, Mult_eval_ints.
    unfold int_add, int_mul. rewrite Z.add_0_r, Z.mul_1_r, wrap_small by exact Hi.
    split; reflexivity.
  - intros Hi. simpl.
    destruct (eval_Result e) as [i|b|]; [now contradiction Hi| |repeat split].
    destruct b; repeat split.
Qed.

(** The laws on an integer tree and on a boolean tree; on the boolean
    [Bool true] the tree [Bool true + 0] is undefined. *)
Lemma unit_laws_witness :
  (eval (Plus (Mult (Num 2) (Num 3)) (Num 0)) = eval (Mult (Num 2) (Num 3)) /\
   eval (Mult (Mult (Num 2) (Num 3)) (Num 1)) = eval (Mult (Num 2) (Num 3))) /\
  eval (And (Bool true) (Or (Bool false) (Bool true))) = eval (Or (Bool false) (Bool true)) /\
  eval (Plus (Bool true) (Num 0)) <> eval (Bool true).
Proof.
  split; [|split].
  - apply (proj1 (unit_laws (Mult (Num 2) (Num 3)))); [discriminate | reflexivity].
  - apply (proj2 (unit_laws (Or (Bool false) (Bool true)))). discriminate.
  - discriminate.
Defined.

(** ** Printing is unambiguous *)

Lemma Itoa_head (i : Z) :
  exists c r, Itoa i = String c r /\ int_char c = true.
Proof.
  pose proof (Itoa_int_char i) as Ha. pose proof (Itoa_decimal i) as Hd.
  destruct (Itoa i) as [|c r].
  - discriminate Hd.
  - simpl in Ha. apply andb_true_iff in Ha. exists c, r. tauto.
Qed.

Lemma int_string_split (u v s t : string) :
  all_chars int_char u = true -> all_chars int_char v = true ->
  stops s = true -> stops t = true ->
  (u ++ s = v ++ t)%string -> u = v /\ s = t.
Proof.
  revert v. induction u as [|c u IH]; intros [|d v] Hu Hv Hs Ht H; simpl in *.
  - now split.
  - subst s. simpl in Hs. apply andb_true_iff in Hv. destruct Hv as [Hd _].
    rewrite Hd in Hs. discriminate Hs.
  - subst t. simpl in Ht. apply andb_true_iff in Hu. destruct Hu as [Hc _].
    rewrite Hc in Ht. discriminate Ht.
  - apply andb_true_iff in Hu, Hv. destruct Hu as [_ Hu], Hv as [_ Hv].
    injection H as -> H. destruct (IH v Hu Hv Hs Ht H) as [-> ->]. now split.
Qed.

(** A printed tree is never a proper prefix of another one inside a
    printed tree: what was printed can be cut off the front of a string in
    one way only. *)
Lemma pretty_prefix_unique (a : Exp) :
  forall (b : Exp) (s t : string),
    stops s = true -> stops t = true ->
    (pretty a ++ s = pretty b ++ t)%string -> a = b /\ s = t.
Proof.
  induction a as [x|x|l IHl r IHr|l IHl r IHr|l IHl r IHr|l IHl r IHr];
    intros [y|y|l' r'|l' r'|l' r'|l' r'] s t Hs Ht H;
    simpl pretty in H;
    rewrite ?Mult_pretty_infix, ?Plus_pretty_infix, ?And_pretty_infix,
      ?Or_pretty_infix in H;
    unfold infix, Num_pretty, Bool_pretty in H;
    rewrite ?append_assoc in H;
    try (destruct x; simpl in H; discriminate H);
    try (destruct y; simpl in H; discriminate H);
    try (destruct (Itoa_head x) as (c & u & E & Hc); rewrite E in H;
         simpl in H; injection H as -> _; discriminate Hc);
    try (destruct (Itoa_head y) as (c & u & E & Hc); rewrite E in H;
         simpl in H; injection H as <- _; discriminate Hc);
    try (simpl in H; injection H as H;
         apply IHl in H; [|reflexivity|reflexivity];
         destruct H as [-> H]; simpl in H;
         first [ discriminate H
               | injection H as H;
                 apply IHr in H; [|reflexivity|reflexivity];
                 destruct H as [-> H]; injection H as ->; split; reflexivity ]).
  - destruct x, y; simpl in H; try discriminate H; injection H as ->;
      split; reflexivity.
  - destruct x; destruct (Itoa_head y) as (c & u & E & Hc); rewrite E in H;
      simpl in H; injection H as <- _; discriminate Hc.
  - destruct y; destruct (Itoa_head x) as (c & u & E & Hc); rewrite E in H;
      simpl in H; injection H as -> _; discriminate Hc.
  - destruct (int_string_split _ _ _ _ (Itoa_int_char x) (Itoa_int_char y) Hs Ht H)
      as [Hxy ->].
    apply Itoa_inj in Hxy. subst y. split; reflexivity.
Qed.

(** X5. [pretty] is injective: two trees are printed as the same string
    only when they are the same tree, so the printed form determines
    the tree. *)
Theorem pretty_inj (a b : Exp) : pretty a = pretty b <-> a = b.
Proof.
  split.
  - intros H.
    apply (pretty_prefix_unique a b "" ""); [reflexivity | reflexivity |].
    now rewrite !append_nil_r.
  - intros ->. reflexivity.
Qed.

(** Regrouped digits and regrouped operands print differently. *)
Lemma pretty_inj_witness :
  pretty (Plus (Num 1) (Num 23)) <> pretty (Plus (Num 12) (Num 3)) /\
  pretty (Plus (Plus (Num 1) (Num 2)) (Num 3)) <> pretty (Plus (Num 1) (Plus (Num 2) (Num 3))).
Proof.
  split; intros H.
  - apply (proj1 (pretty_inj _ _)) in H. discriminate H.
  - apply (proj1 (pretty_inj _ _)) in H. discriminate H.
Defined.

(** ** showVal tells results apart *)

Lemma Itoa_not_word (i : Z) (c : ascii) (r : string) :
  int_char c = false -> Itoa i <> String c r.
Proof.
  intros Hc H. destruct (Itoa_head i) as (d & u & E & Hd).
  rewrite E in H. injection H as -> _. congruence.
Qed.

Lemma showVal_Result_inj (v w : Val) :
  Result v -> Result w -> showVal v = showVal w -> v = w.
Proof.
  intros [i|b|] [j|c|] H.
  - change (Itoa i = Itoa j) in H. apply Itoa_inj in H. now subst j.
  - exfalso. revert H. destruct c; apply Itoa_not_word; reflexivity.
  - exfalso. revert H. apply Itoa_not_word. reflexivity.
  - exfalso. symmetry in H. revert H. destruct b; apply Itoa_not_word; reflexivity.
  - destruct b, c; try discriminate H; reflexivity.
  - destruct b; discriminate H.
  - exfalso. symmetry in H. revert H. apply Itoa_not_word. reflexivity.
  - destruct c; discriminate H.
  - reflexivity.
Qed.

(** X6. [showVal] is faithful on the results of [eval]: two evaluations
    are displayed as the same string exactly when they returned the same
    value, and the displayed string is never empty. *)
Theorem showVal_faithful (e1 e2 : Exp) :
  (showVal (eval e1) = showVal (eval e2) <-> eval e1 = eval e2) /\
  showVal (eval e1) <> "".
Proof.
  split; [split|].
  - apply showVal_Result_inj; apply eval_Result.
  - intros ->. reflexivity.
  - destruct (eval_Result e1) as [i|[|]|]; try discriminate.
    change (showVal (mkInt i)) with (Itoa i).
    destruct (Itoa_head i) as (c & r & -> & _). discriminate.
Qed.

(** ** Panics of method calls *)

Lemma eval_Ok_box (x : Iface.value) (v : Val) :
  Iface.eval x = Iface.Ok v -> exists e, x = Iface.box e /\ v = eval e.
Proof.
  intros H.
  destruct (Iface.is_tree x) eqn:Ht.
  - destruct (is_tree_box x Ht) as [e ->]. exists e. split; [reflexivity|].
    rewrite box_eval in H. now injection H as <-.
  - apply eval_panics in Ht. rewrite Ht in H. discriminate H.
Qed.

(** X7. On an interface value a call of [eval] panics exactly when a
    [nil] occurs somewhere in the value, [pretty] panics on the same
    values, and a call that returns is the evaluation of a tree. Both
    children are evaluated before the switch, so a [nil] right operand
    panics also under a left operand that decides the result. *)
Theorem panic_iff_nil (x : Iface.value) :
  (Iface.eval x = Iface.Panic <-> Iface.is_tree x = false) /\
  (Iface.pretty x = Iface.Panic <-> Iface.eval x = Iface.Panic) /\
  (forall v, Iface.eval x = Iface.Ok v -> exists e, x = Iface.box e /\ v = eval e) /\
  Iface.eval (Iface.ofAnd x Iface.nil) = Iface.Panic /\
  Iface.eval (Iface.ofOr x Iface.nil) = Iface.Panic.
Proof.
  repeat apply conj.
  - apply eval_panics.
  - apply eval_panics.
  - intros H. apply pretty_panics in H. now apply eval_panics.
  - intros H. apply eval_panics in H. now apply pretty_panics.
  - apply eval_Ok_box.
  - apply eval_panics. simpl. apply andb_false_r.
  - apply eval_panics. simpl. apply andb_false_r.
Qed.

(** * The functions of the tutorial part *)

(** ** add, sum and div *)

Lemma quot_bound (M x y : Z) :
  0 < M -> - M <= x <= M - 1 -> y <> 0 -> ~ (x = - M /\ y = -1) ->
  - M <= Z.quot x y <= M - 1.
Proof.
  intros HM Hx Hy Hov.
  rewrite Z.quot_div by assumption.
  assert (Hd0 : 0 <= Z.abs x / Z.abs y) by (apply Z.div_pos; lia).
  assert (Hd1 : Z.abs y * (Z.abs x / Z.abs y) <= Z.abs x) by (apply Z.mul_div_le; lia).
  remember (Z.abs x / Z.abs y) as d eqn:Ed. clear Ed.
  destruct (Z.sgn_spec x) as [[Sx ->]|[[Sx ->]|[Sx ->]]];
    destruct (Z.sgn_spec y) as [[Sy ->]|[[Sy ->]|[Sy ->]]]; try lia; nia.
Qed.

Lemma quot_in_int (x y : Z) :
  in_int x = true -> in_int y = true -> y <> 0 -> ~ (x = minInt /\ y = -1) ->
  in_int (Z.quot x y) = true.
Proof.
  intros Hx Hy Hy0 Hov. apply in_int_spec in Hx. apply in_int_spec.
  unfold minInt, maxInt in *.
  apply quot_bound; try assumption.
  apply Z.pow_pos_nonneg; [lia | discriminate].
Qed.

(** X8. [div] never panics: the test on [y] keeps the division away from
    a zero divisor (on which [/] alone panics). The status is [false]
    exactly for [y = 0], then with the quotient 0; the quotient returned
    is always a Go integer, [minInt / -1] wrapping around to [minInt]. *)
Theorem div_total (x y : Z) :
  Tutorial.int_quo x 0 = Iface.Panic /\
  (exists q ok, Tutorial.div x y = Iface.Ok (q, ok) /\
                (ok = false <-> y = 0) /\
                (y = 0 -> q = 0) /\
                in_int q = true) /\
  Tutorial.div minInt (-1) = Iface.Ok (minInt, true).
Proof.
  split; [reflexivity|]. split; [|reflexivity].
  unfold Tutorial.div, Tutorial.int_quo.
  destruct (Z.eqb_spec y 0) as [->|Hy]; simpl.
  - exists 0, false. repeat split; reflexivity.
  - exists (wrap (Z.quot x y)), true. repeat split.
    + discriminate.
    + intros H. contradiction.
    + intros H. contradiction.
    + apply wrap_in_int.
Qed.

(** X9. For Go integers [x] and [y] with [y] not zero, and apart from
    [minInt / -1], [div] returns the quotient truncated towards zero
    with the status [true]: [x] is [y] times the quotient plus a remainder
    smaller than [y] in absolute value that has the sign of [x]. *)
Theorem div_quotient (x y : Z) :
  in_int x = true -> in_int y = true -> y <> 0 -> ~ (x = minInt /\ y = -1) ->
  exists q r,
    Tutorial.div x y = Iface.Ok (q, true) /\
    x = y * q + r /\ Z.abs r < Z.abs y /\ 0 <= r * x.
Proof.
  intros Hx Hy Hy0 Hov.
  exists (Z.quot x y), (Z.rem x y). repeat apply conj.
  - unfold Tutorial.div, Tutorial.int_quo.
    apply Z.eqb_neq in Hy0. rewrite Hy0. simpl.
    rewrite wrap_small; [reflexivity|].
    apply Z.eqb_neq in Hy0. now apply quot_in_int.
  - apply Z.quot_rem'.
  - now apply Z.rem_bound_abs.
  - now apply Z.rem_sign_mul.
Qed.

(** [-7 / 2] is [-3] with the remainder [-1]. *)
Lemma div_quotient_witness :
  exists q r, Tutorial.div (-7) 2 = Iface.Ok (q, true) /\
              -7 = 2 * q + r /\ Z.abs r < Z.abs 2 /\ 0 <= r * -7.
Proof.
  apply (div_quotient (-7) 2).
  - reflexivity.
  - reflexivity.
  - discriminate.
  - intros [H _]. discriminate H.
Defined.

(** X10. [add] is commutative and associative also when a sum overflows,
    its result is always a Go integer, 0 is neutral on Go integers, and the
    closure [sum x] adds [x]: [sum x y = add x y]. *)
Theorem add_laws (x y z : Z) :
  Tutorial.add x y = Tutorial.add y x /\
  Tutorial.add (Tutorial.add x y) z = Tutorial.add x (Tutorial.add y z) /\
  in_int (Tutorial.add x y) = true /\
  (in_int x = true -> Tutorial.add x 0 = x /\ Tutorial.add 0 x = x) /\
  Tutorial.sum x y = Tutorial.add x y /\
  Tutorial.sum x (Tutorial.sum y z) = Tutorial.sum (Tutorial.sum x y) z.
Proof.
  unfold Tutorial.sum, Tutorial.add. repeat apply conj.
  - apply int_add_comm.
  - apply int_add_assoc.
  - apply wrap_in_int.
  - intros Hx. unfold int_add. rewrite Z.add_0_r, Z.add_0_l, wrap_small by exact Hx.
    split; reflexivity.
  - reflexivity.
  - symmetry. apply int_add_assoc.
Qed.

(** ** any *)

Lemma any_existsb (p : Z -> bool) (xs : list Z) :
  fst (Tutorial.any p xs) = existsb p xs.
Proof.
  induction xs as [|x xs IH]; simpl.
  - reflexivity.
  - destruct (p x); simpl; [reflexivity | exact IH].
Qed.

Lemma any_find (p : Z -> bool) (xs : list Z) :
  Tutorial.any p xs =
  match find p xs with
  | Some x => (true, x)
  | None => (false, -1)
  end.
Proof.
  induction xs as [|x xs IH]; simpl.
  - reflexivity.
  - destruct (p x); [reflexivity | exact IH].
Qed.

(** X11. [any p xs] returns [true] with [r] exactly when [r] is the first
    element of [xs] that satisfies [p]: [xs] splits into elements that
    all fail [p], then [r], then the rest. *)
Theorem any_first (p : Z -> bool) (xs : list Z) (r : Z) :
  Tutorial.any p xs = (true, r) <->
  exists pre post, xs = (pre ++ r :: post)%list /\ p r = true /\
                   forall y, In y pre -> p y = false.
Proof.
  split.
  - induction xs as [|x xs IH]; simpl; intros H.
    + discriminate H.
    + destruct (p x) eqn:Hx.
      * injection H as <-. exists nil, xs. repeat split; [exact Hx|].
        intros y [].
      * destruct (IH H) as (pre & post & -> & Hr & Hpre).
        exists (x :: pre), post. repeat split; [exact Hr|].
        intros y [<-|Hy]; [exact Hx | now apply Hpre].
  - intros (pre & post & -> & Hr & Hpre).
    induction pre as [|y pre IH]; simpl.
    + now rewrite Hr.
    + rewrite (Hpre y) by now left.
      apply IH. intros z Hz. apply Hpre. now right.
Qed.

(** X12. The status of [any] says whether an element satisfies [p]:
    [true] exactly when some element of [xs] does, and then the integer
    returned is such an element of [xs]; [false] exactly when none does
    (always so on the empty slice), and then the integer is [-1]. The
    integer alone does not tell: [-1] is also returned as an element
    found. *)
Theorem any_status (p : Z -> bool) (xs : list Z) :
  (fst (Tutorial.any p xs) = true <-> exists x, In x xs /\ p x = true) /\
  (fst (Tutorial.any p xs) = true ->
     In (snd (Tutorial.any p xs)) xs /\ p (snd (Tutorial.any p xs)) = true) /\
  (fst (Tutorial.any p xs) = false <-> forall x, In x xs -> p x = false) /\
  (fst (Tutorial.any p xs) = false -> snd (Tutorial.any p xs) = -1) /\
  Tutorial.any p nil = (false, -1) /\
  Tutorial.any (fun x => x <? 0) (3 :: -1 :: nil) = (true, -1).
Proof.
  split; [|split; [|split; [|split; [|split; reflexivity]]]].
  - rewrite any_existsb. apply existsb_exists.
  - rewrite any_find. destruct (find p xs) as [x|] eqn:Hf; simpl; [|discriminate].
    intros _. now apply find_some in Hf.
  - split.
    + rewrite any_find. destruct (find p xs) as [x|] eqn:Hf; simpl; [discriminate|].
      intros _ x Hx. now apply (find_none p xs).
    + intros H. rewrite any_existsb.
      destruct (existsb p xs) eqn:He; [|reflexivity].
      apply existsb_exists in He. destruct He as (x & Hx & Hp).
      rewrite (H x Hx) in Hp. discriminate Hp.
  - rewrite any_find. destruct (find p xs); simpl; [discriminate | reflexivity].
Qed.

(** X13. Searching a concatenation is searching the first part and, only
    when nothing is found there, the second. *)
Theorem any_app (p : Z -> bool) (xs ys : list Z) :
  Tutorial.any p (xs ++ ys)%list =
  if fst (Tutorial.any p xs) then Tutorial.any p xs else Tutorial.any p ys.
Proof.
  induction xs as [|x xs IH]; simpl.
  - reflexivity.
  - destruct (p x); [reflexivity | exact IH].
Qed.

(** ** Rectangles and shapes *)

(** X14. Scalings compose: scaling by [s] and then by [t] is scaling by
    the product [s * t] (on Go's [int]), in either order, and scaling a
    rectangle of Go integers by 1 leaves it as it is. *)
Theorem scaleRectangle_compose (p : Tutorial.rectangle) (s t : Z) :
  Tutorial.scaleRectangle (Tutorial.scaleRectangle p s) t =
    Tutorial.scaleRectangle p (int_mul s t) /\
  Tutorial.scaleRectangle (Tutorial.scaleRectangle p s) t =
    Tutorial.scaleRectangle (Tutorial.scaleRectangle p t) s /\
  (in_int (Tutorial.rectangle_x p) = true -> in_int (Tutorial.rectangle_y p) = true ->
     Tutorial.scaleRectangle p 1 = p).
Proof.
  destruct p as [px py]. unfold Tutorial.scaleRectangle. simpl. repeat apply conj.
  - now rewrite !int_mul_assoc.
  - rewrite !int_mul_assoc, (int_mul_comm s t). reflexivity.
  - intros Hx Hy. unfold int_mul. now rewrite !Z.mul_1_r, !wrap_small.
Qed.

(** X15. Scaling a rectangle by [s] multiplies its area by [s * s], also
    when a product overflows; and the area of a square is the area of the
    rectangle with its side as both sides. *)
Theorem area_scale (p : Tutorial.rectangle) (s a : Z) :
  Tutorial.rectangle_area (Tutorial.scaleRectangle p s) =
    int_mul (Tutorial.rectangle_area p) (int_mul s s) /\
  Tutorial.square_area (Tutorial.mkSquare a) =
    Tutorial.rectangle_area (Tutorial.mkRectangle a a).
Proof.
  split; [|reflexivity].
  destruct p as [px py].
  unfold Tutorial.rectangle_area, Tutorial.scaleRectangle, int_mul. simpl.
  rewrite !wrap_mul_l, !wrap_mul_r. f_equal. ring.
Qed.

(** X16. [sumArea] adds the areas of its two shapes, whatever their
    types; it panics exactly when one of them is [nil], and the order of
    the arguments does not matter. *)
Theorem sumArea_spec (x y : Tutorial.shape) :
  Tutorial.sumArea x y = Tutorial.sumArea y x /\
  (Tutorial.sumArea x y = Iface.Panic <->
     x = Tutorial.shape_nil \/ y = Tutorial.shape_nil) /\
  (forall a b, Tutorial.area x = Iface.Ok a -> Tutorial.area y = Iface.Ok b ->
     Tutorial.sumArea x y = Iface.Ok (int_add a b)).
Proof.
  repeat apply conj.
  - destruct x, y; unfold Tutorial.sumArea; cbn [Tutorial.area Iface.bind];
      try reflexivity; now rewrite int_add_comm.
  - destruct x, y; simpl; intros H; try discriminate H; auto.
  - destruct x, y; simpl; intros [H|H]; try discriminate H; reflexivity.
  - intros a b Ha Hb. unfold Tutorial.sumArea. now rewrite Ha, Hb.
Qed.

(** ** Writing through pointers *)

Lemma assign_same {A : Type} (h : Tutorial.store A) (l : nat) (v : A) :
  Tutorial.assign h l v l = v.
Proof.
  unfold Tutorial.assign. now rewrite Nat.eqb_refl.
Qed.

Lemma assign_other {A : Type} (h : Tutorial.store A) (l l' : nat) (v : A) :
  l' <> l -> Tutorial.assign h l v l' = h l'.
Proof.
  intros H. unfold Tutorial.assign. apply Nat.eqb_neq in H. now rewrite H.
Qed.

(** X17. [scaleRectangleRef] panics on a [nil] pointer; on the address of
    a rectangle it scales that rectangle in place as [scaleRectangle]
    does, and leaves every other rectangle as it was. *)
Theorem scaleRectangleRef_spec (h : Tutorial.store Tutorial.rectangle) (l : nat) (s : Z) :
  Tutorial.scaleRectangleRef h None s = Iface.Panic /\
  exists h', Tutorial.scaleRectangleRef h (Some l) s = Iface.Ok h' /\
             h' l = Tutorial.scaleRectangle (h l) s /\
             forall l', l' <> l -> h' l' = h l'.
Proof.
  split; [reflexivity|].
  eexists. split; [reflexivity|]. split.
  - rewrite !assign_same. reflexivity.
  - intros l' Hl. now rewrite !assign_other.
Qed.

(** X18. [swap] panics when one of the two pointers is [nil]; otherwise
    the two variables hold each other's old value afterwards (also when
    they are the same variable, which then keeps its value) and every
    other variable is unchanged. *)
Theorem swap_spec {A : Type} (h : Tutorial.store A) (lx ly : nat) :
  (forall y, Tutorial.swap h None y = Iface.Panic) /\
  (forall x, Tutorial.swap h x None = Iface.Panic) /\
  exists h', Tutorial.swap h (Some lx) (Some ly) = Iface.Ok h' /\
             h' lx = h ly /\ h' ly = h lx /\
             forall l, l <> lx -> l <> ly -> h' l = h l.
Proof.
  split; [reflexivity|]. split; [now intros [x|]|].
  eexists. split; [reflexivity|]. repeat apply conj.
  - destruct (Nat.eq_dec lx ly) as [->|Hn].
    + now rewrite assign_same.
    + now rewrite assign_other, assign_same.
  - now rewrite assign_same.
  - intros l Hx Hy. now rewrite !assign_other.
Qed.

(** X19. Swapping twice restores every variable, and swapping [x] with
    [y] gives the same store as swapping [y] with [x]. *)
Theorem swap_twice {A : Type} (h : Tutorial.store A) (lx ly : nat) :
  exists h1 h2 h3,
    Tutorial.swap h (Some lx) (Some ly) = Iface.Ok h1 /\
    Tutorial.swap h1 (Some lx) (Some ly) = Iface.Ok h2 /\
    Tutorial.swap h (Some ly) (Some lx) = Iface.Ok h3 /\
    (forall l, h2 l = h l) /\
    (forall l, h3 l = h1 l).
Proof.
  do 3 eexists.
  split; [reflexivity|]. split; [reflexivity|]. split; [reflexivity|].
  split; intros l; unfold Tutorial.assign;
    repeat match goal with
           | |- context [Nat.eqb ?a ?b] => destruct (Nat.eqb_spec a b); subst
           end; try reflexivity; try contradiction.
Qed.

(** The slice of [example6]: the first element greater than 5 is 6, after
    3 and 5. *)
Lemma any_first_witness :
  Tutorial.any Tutorial.gt5 (3 :: 5 :: 6 :: 1 :: nil) = (true, 6).
Proof.
  apply (proj2 (any_first Tutorial.gt5 (3 :: 5 :: 6 :: 1 :: nil) 6)).
  exists (3 :: 5 :: nil), (1 :: nil). repeat split.
  intros y [<-|[<-|[]]]; reflexivity.
Defined.

(** ** The root node bounds the kind of the result *)

(** X20. The root of a tree bounds the kind of its result: an arithmetic
    node never evaluates to a boolean and a logical node never to an
    integer. So an arithmetic node with a logical child is always
    undefined, and a logical node with an arithmetic left child too. *)
Theorem root_kind (a b c : Exp) :
  (flag (eval (Plus a b)) <> ValueBool /\ flag (eval (Mult a b)) <> ValueBool) /\
  (flag (eval (And a b)) <> ValueInt /\ flag (eval (Or a b)) <> ValueInt) /\
  (eval (Plus (And a b) c) = mkUndefined /\ eval (Mult c (Or a b)) = mkUndefined) /\
  (eval (And (Plus a b) c) = mkUndefined /\ eval (Or (Mult a b) c) = mkUndefined).
Proof.
  assert (Hp : flag (eval (Plus a b)) <> ValueBool).
  { simpl. unfold Plus_eval. destruct (_ && _); discriminate. }
  assert (Hm : flag (eval (Mult a b)) <> ValueBool).
  { simpl. unfold Mult_eval. destruct (_ && _); discriminate. }
  assert (Ha : flag (eval (And a b)) <> ValueInt).
  { simpl. unfold And_eval. destruct (_ && _); [discriminate|].
    destruct (_ && _); discriminate. }
  assert (Ho : flag (eval (Or a b)) <> ValueInt).
  { simpl. unfold Or_eval. destruct (_ && _); [discriminate|].
    destruct (_ && _); discriminate. }
  repeat apply conj; try assumption.
  - apply Plus_eval_not_ints. now left.
  - apply Mult_eval_not_ints. now right.
  - now apply And_eval_not_bool_l.
  - now apply Or_eval_not_bool_l.
Qed.
